(** * Name transformer and page generator of the tools site

    A shallow embedding of [src/utils/tool-names.ts] and
    [scripts/generate-pages.ts], and of the tax computation of
    [src/tools/SgTaxCalculator.tsx].

    Strings.  A JavaScript string is a sequence of UTF-16 code units.  The
    development works with the strings whose code units lie in
    U+0000..U+00FF: a [string] is read as such a sequence, one [ascii] per
    code unit (Latin-1).  On that range [toLowerCase] is context free and
    maps one code unit to one code unit, and the white space removed by
    [trim] is TAB, LF, VT, FF, CR, SP and NBSP.

    File system.  The pages directory is a finite map from file name to file
    content.  It exists and can be written to, and [readdirSync] answers
    with a listing.  The file system takes no file name longer than
    [NAME_MAX] = 255 bytes: [writeFileSync] on a longer name throws
    [ENAMETOOLONG], and the error, which nothing catches, ends the script
    there.  The script is written in a small state and exception monad: a
    step answers with a normal completion or a throw, and with the pages
    directory and the console as it leaves them.

    Numbers.  A JavaScript number is an IEEE 754 binary64 value; it is a
    primitive [float] here, with the same arithmetic, rounding and
    comparisons, and a decimal literal stands for the nearest binary64
    value in both. *)

From Stdlib Require Import Ascii String List Arith Lia Bool ZArith Floats.
From stdpp Require Import gmap strings list fin_maps.
Import ListNotations.

Set Warnings "-clear-no-such-hyp".
Set Warnings "-inexact-float".

(** ** ECMAScript string built-ins used by the sources *)

Module JS.

Definition code (c : ascii) : nat := nat_of_ascii c.

(** The regular expression class [[A-Z]] (no [i] flag, no [u] flag). *)
Definition isAZ (c : ascii) : bool :=
  Nat.leb 65 (code c) && Nat.leb (code c) 90.

(** The letters [a] to [z]. *)
Definition isaz (c : ascii) : bool :=
  Nat.leb 97 (code c) && Nat.leb (code c) 122.

(** Code units that have a different lowercase mapping: [A-Z], and the
    Latin-1 capitals U+00C0..U+00DE except the multiplication sign
    U+00D7. *)
Definition isUpperCase (c : ascii) : bool :=
  isAZ c
  || (Nat.leb 192 (code c) && Nat.leb (code c) 222
      && negb (Nat.eqb (code c) 215)).

Definition toLowerCaseChar (c : ascii) : ascii :=
  if isUpperCase c then ascii_of_nat (code c + 32) else c.

(** [String.prototype.toLowerCase]. *)
Fixpoint toLowerCase (s : string) : string :=
  match s with
  | EmptyString => EmptyString
  | String c r => String (toLowerCaseChar c) (toLowerCase r)
  end.

(** [s.replace(/([A-Z])/g, pre + "$1")]: every code unit matched by the
    class is replaced by [pre] followed by the captured code unit. *)
Fixpoint replaceAZ (pre : string) (s : string) : string :=
  match s with
  | EmptyString => EmptyString
  | String c r =>
      if isAZ c then pre +:+ String c (replaceAZ pre r)
      else String c (replaceAZ pre r)
  end.

(** [s.slice(start)] for a start index [start >= 0]. *)
Fixpoint slice (start : nat) (s : string) : string :=
  match start, s with
  | O, _ => s
  | S _, EmptyString => EmptyString
  | S n, String _ r => slice n r
  end.

(** WhiteSpace and LineTerminator code units below U+0100. *)
Definition isWhiteSpace (c : ascii) : bool :=
  match code c with
  | 9 | 10 | 11 | 12 | 13 | 32 | 160 => true
  | _ => false
  end.

Fixpoint trimStart (s : string) : string :=
  match s with
  | EmptyString => EmptyString
  | String c r => if isWhiteSpace c then trimStart r else s
  end.

Definition isEmpty (s : string) : bool :=
  match s with EmptyString => true | String _ _ => false end.

Fixpoint trimEnd (s : string) : string :=
  match s with
  | EmptyString => EmptyString
  | String c r =>
      let r' := trimEnd r in
      if isWhiteSpace c && isEmpty r' then EmptyString else String c r'
  end.

(** [String.prototype.trim]. *)
Definition trim (s : string) : string := trimEnd (trimStart s).

(** [s.endsWith(suffix)]. *)
Definition endsWith (s suffix : string) : bool :=
  let n := String.length s in
  let m := String.length suffix in
  Nat.leb m n && String.eqb (String.substring (n - m) m s) suffix.

(** [s.replace(pattern, replacement)] with a string pattern: only the
    first occurrence is replaced.  The replacement is taken literally,
    which is what JavaScript does when it holds no dollar sign. *)
Fixpoint replaceFirst (pattern replacement : string) (s : string) : string :=
  if String.prefix pattern s
  then replacement +:+ slice (String.length pattern) s
  else match s with
       | EmptyString => EmptyString
       | String c r => String c (replaceFirst pattern replacement r)
       end.

End JS.

(** ** [src/utils/tool-names.ts] *)

Module ToolNames.
Import JS.

Definition toKebabCase (componentName : string) : string :=
  slice 1 (toLowerCase (replaceAZ "-" componentName)).

Definition toTitleCase (componentName : string) : string :=
  trim (replaceAZ " " componentName).

End ToolNames.

(** ** [scripts/generate-pages.ts] *)

Module GeneratePages.
Import JS.

Definition dq : string := String (ascii_of_nat 34) EmptyString.
Definition nl : string := String (ascii_of_nat 10) EmptyString.
Definition tab : string := String (ascii_of_nat 9) EmptyString.

(** [file.replace(".tsx", "")] *)
Definition componentName (file : string) : string :=
  replaceFirst ".tsx" "" file.

(** The slug computation written out in the loop body. *)
Definition pageName (componentName : string) : string :=
  slice 1 (toLowerCase (replaceAZ "-" componentName)).

(** The template literal, line by line. *)
Definition pageContent (componentName : string) : string :=
  String.concat ""
    [ "---"; nl;
      "import Layout from "; dq; "@/layouts/Layout.astro"; dq; ";"; nl;
      "import "; componentName; " from ";
        dq; "@/tools/"; componentName; dq; ";"; nl;
      "---"; nl;
      nl;
      "<Layout>"; nl;
      tab; "<"; componentName; " client:load />"; nl;
      "</Layout>"; nl ].

(** Destination of the write, relative to the pages directory. *)
Definition pageFile (pageName : string) : string := pageName +:+ ".astro".

(** What [console.log] prints: one success notice per page, and the final
    count. *)
Inductive notice : Type :=
| Generated (pageFile : string)
| GeneratedPages (count : nat).

Record world : Type := World {
  pages : gmap string string;
  console : list notice
}.

(** The longest file name the file system takes, in bytes. *)
Definition NAME_MAX : nat := 255.

(** Bytes of the UTF-8 encoding of a name: one for a code unit below
    U+0080, two for the other code units of the range. *)
Fixpoint utf8Length (s : string) : nat :=
  match s with
  | EmptyString => 0
  | String c r => (if Nat.ltb (code c) 128 then 1 else 2) + utf8Length r
  end.

Definition nameFits (name : string) : bool :=
  Nat.leb (utf8Length name) NAME_MAX.

(** The error a write throws. *)
Inductive exception : Type :=
| ENAMETOOLONG (path : string).

(** How a step ends: normally, or with a throw that nothing catches. *)
Inductive completion (A : Type) : Type :=
| Normal (a : A)
| Throw (e : exception).

Arguments Normal {A} a.
Arguments Throw {A} e.

Definition script (A : Type) : Type := world -> completion A * world.

Definition ret {A : Type} (a : A) : script A := fun w => (Normal a, w).

(** Sequencing: a throw skips what follows. *)
Definition bind {A B : Type} (m : script A) (k : A -> script B) : script B :=
  fun w =>
    match m w with
    | (Normal a, w') => k a w'
    | (Throw e, w') => (Throw e, w')
    end.

Notation "m ;; k" := (bind m (fun _ => k))
  (at level 100, k at level 200, right associativity).

Definition writeFileSync (path content : string) : script unit :=
  fun w =>
    if nameFits path
    then (Normal tt, World (<[path := content]> (pages w)) (console w))
    else (Throw (ENAMETOOLONG path), w).

Definition consoleLog (n : notice) : script unit :=
  fun w => (Normal tt, World (pages w) (console w ++ [n])).

(** [for (const x of items) body] *)
Fixpoint forOf {A : Type} (items : list A) (body : A -> script unit)
    : script unit :=
  match items with
  | [] => ret tt
  | x :: rest => body x ;; forOf rest body
  end.

(** [readdirSync(toolsDir).filter((file) => file.endsWith(".tsx"))] *)
Definition files (listing : list string) : list string :=
  List.filter (fun file => endsWith file ".tsx") listing.

(** One turn of the [for] loop. *)
Definition loopBody (file : string) : script unit :=
  let cn := componentName file in
  let pn := pageName cn in
  writeFileSync (pageFile pn) (pageContent cn) ;;
  consoleLog (Generated (pageFile pn)).

(** The whole script, started on a tools directory listing. *)
Definition generatePages (listing : list string) : script unit :=
  let fs := files listing in
  forOf fs loopBody ;;
  consoleLog (GeneratedPages (length fs)).

(** Where the page of [file] goes, and what is written there. *)
Definition destination (file : string) : string :=
  pageFile (pageName (componentName file)).

Definition artifact (file : string) : string :=
  pageContent (componentName file).

Definition writePage (dir : gmap string string) (file : string)
    : gmap string string :=
  <[destination file := artifact file]> dir.

(** The pages directory after a run, completed or ended by a throw. *)
Definition generate (listing : list string)
    (dir : gmap string string) : gmap string string :=
  pages (snd (generatePages listing (World dir []))).

(** The files whose page is written: those before the first one whose
    page file name is refused. *)
Fixpoint written (fs : list string) : list string :=
  match fs with
  | [] => []
  | f :: rest => if nameFits (destination f) then f :: written rest else []
  end.

(** The first page file name that is refused, when there is one. *)
Fixpoint refused (fs : list string) : option string :=
  match fs with
  | [] => None
  | f :: rest =>
      if nameFits (destination f) then refused rest else Some (destination f)
  end.

End GeneratePages.

(** ** Vocabulary of the specification *)

Module Words.
Import JS.

Fixpoint allChars (p : ascii -> bool) (s : string) : bool :=
  match s with
  | EmptyString => true
  | String c r => p c && allChars p r
  end.

Fixpoint countChars (p : ascii -> bool) (s : string) : nat :=
  match s with
  | EmptyString => 0
  | String c r => (if p c then 1 else 0) + countChars p r
  end.

Definition isChar (c d : ascii) : bool := Ascii.eqb c d.

Definition hyphen : ascii := ascii_of_nat 45.
Definition dot : ascii := ascii_of_nat 46.
Definition space : ascii := ascii_of_nat 32.

(** [s] with every occurrence of the code unit [c] removed. *)
Fixpoint removeChar (c : ascii) (s : string) : string :=
  match s with
  | EmptyString => EmptyString
  | String d r => if isChar c d then removeChar c r else String d (removeChar c r)
  end.

(** A capitalized word: one uppercase letter, then lowercase letters
    (possibly none). *)
Definition isCapitalizedWord (w : string) : bool :=
  match w with
  | EmptyString => false
  | String c r => isAZ c && allChars isaz r
  end.

Definition isLetter (c : ascii) : bool := isAZ c || isaz c.

(** The identifier spelled by the words [w0 w1 ... wn]. *)
Definition identifier (ws : list string) : string := String.concat "" ws.

(** A PascalCase identifier is split into one or more capitalized
    words. *)
Definition isPascalCase (ws : list string) : bool :=
  negb (Nat.eqb (length ws) 0) && forallb isCapitalizedWord ws.

(** [s] without its last [length suffix] code units: the suffix stripped
    from a string that ends in it. *)
Definition stripSuffix (suffix s : string) : string :=
  String.substring 0 (String.length s - String.length suffix) s.

(** [s] written [n] times in a row. *)
Fixpoint times (n : nat) (s : string) : string :=
  match n with
  | O => EmptyString
  | S m => s +:+ times m s
  end.

Definition firstChar (s : string) : option ascii :=
  match s with EmptyString => None | String c _ => Some c end.

Fixpoint lastChar (s : string) : option ascii :=
  match s with
  | EmptyString => None
  | String c EmptyString => Some c
  | String _ r => lastChar r
  end.

End Words.

(** ** Component names *)

Module Names.
Import JS Words.

Definition isDigit (c : ascii) : bool :=
  Nat.leb 48 (code c) && Nat.leb (code c) 57.

Definition isAlnum (c : ascii) : bool := isAZ c || isaz c || isDigit c.

(** A component name the way the README writes them: letters and digits,
    the first one a letter in [A-Z]. *)
Definition isComponentName (s : string) : bool :=
  match s with
  | EmptyString => false
  | String c r => isAZ c && allChars isAlnum r
  end.

(** The code units of a slug: [a-z], digits and the hyphen. *)
Definition isSlugChar (c : ascii) : bool :=
  isaz c || isDigit c || isChar hyphen c.

Definition toUpperCaseChar (c : ascii) : ascii :=
  if isaz c then ascii_of_nat (code c - 32) else c.

(** Reads a lowercased, hyphen-marked name back: a hyphen announces a
    capital.  Only used to show that names can be told apart by their
    slugs. *)
Fixpoint unmark (s : string) : string :=
  match s with
  | EmptyString => EmptyString
  | String c r =>
      if isChar hyphen c
      then match r with
           | EmptyString => EmptyString
           | String d r' => String (toUpperCaseChar d) (unmark r')
           end
      else String c (unmark r)
  end.

(** The only white space of [s] is the space character. *)
Definition spacesOnly (s : string) : bool :=
  allChars (fun c => implb (isWhiteSpace c) (isChar space c)) s.

End Names.

(** ** [src/tools/SgTaxCalculator.tsx] *)

Module SgTaxCalculator.

Record bracketRow : Type := BracketRow {
  threshold : float;
  rate : float;
  cumulative : float
}.

Definition taxBrackets : list bracketRow :=
  [ BracketRow 0 0 0;
    BracketRow 20000 0.02 0;
    BracketRow 30000 0.035 200;
    BracketRow 40000 0.07 550;
    BracketRow 80000 0.115 3350;
    BracketRow 120000 0.15 7950;
    BracketRow 160000 0.18 13950;
    BracketRow 200000 0.19 21150;
    BracketRow 240000 0.195 28750;
    BracketRow 280000 0.2 36550;
    BracketRow 320000 0.22 44550;
    BracketRow 500000 0.23 84150;
    BracketRow 1000000 0.24 199150 ]%float.

(** [taxBrackets[i]], for an index of the table. *)
Definition row (i : nat) : bracketRow := nth i taxBrackets (BracketRow 0 0 0).

(** The [for] loop entered with index [i]: it counts down and stops at the
    first row whose threshold lies below the income; [bracket] keeps its
    initial 0 when no row does. *)
Fixpoint searchDown (income : float) (i : nat) : nat :=
  if PrimFloat.ltb (threshold (row i)) income then i
  else match i with
       | O => 0
       | S j => searchDown income j
       end.

(** The object [{ tax, bracket, rate }]; its [rate] is [resultRate] here,
    [rate] being the column of the table. *)
Record taxResult : Type := TaxResult {
  tax : float;
  bracket : nat;
  resultRate : float
}.

Definition calculateTax (income : float) : taxResult :=
  if PrimFloat.leb income 20000 then TaxResult 0 0 0
  else
    let bracket := searchDown income (length taxBrackets - 1) in
    let currentBracket := row bracket in
    let excess := PrimFloat.sub income (threshold currentBracket) in
    let tax := PrimFloat.add (cumulative currentBracket)
                 (PrimFloat.mul excess (rate currentBracket)) in
    TaxResult tax bracket (rate currentBracket).

End SgTaxCalculator.

Import JS ToolNames GeneratePages Words Names SgTaxCalculator.

Example kebab_sg : toKebabCase "SgTaxCalculator" = "sg-tax-calculator".
Proof. reflexivity. Qed.

Example kebab_einops : toKebabCase "EinopsViz" = "einops-viz".
Proof. reflexivity. Qed.

Example title_cropper : toTitleCase "CircleImageCropper" = "Circle Image Cropper".
Proof. reflexivity. Qed.

(** ** Code units *)

Ltac each_ascii c :=
  destruct c as [[] [] [] [] [] [] [] []]; vm_compute; try reflexivity; try discriminate.

Lemma lower_not_upper c : isUpperCase (toLowerCaseChar c) = false.
Proof. each_ascii c. Qed.

Lemma lower_of_az c : isaz c = true -> toLowerCaseChar c = c.
Proof. each_ascii c. Qed.

Lemma az_not_hyphen c : isaz c = true -> isChar hyphen c = false.
Proof. each_ascii c. Qed.

Lemma AZ_not_blank c : isAZ c = true -> isChar space c = false.
Proof. each_ascii c. Qed.

Lemma az_not_blank c : isaz c = true -> isChar space c = false.
Proof. each_ascii c. Qed.

Lemma az_not_AZ c : isaz c = true -> isAZ c = false.
Proof. each_ascii c. Qed.

(** ** Strings *)

Lemma app_cons c s t : String c s +:+ t = String c (s +:+ t).
Proof. reflexivity. Qed.

Lemma app_empty_l s : "" +:+ s = s.
Proof. reflexivity. Qed.

Lemma app_assoc' s t u : (s +:+ t) +:+ u = s +:+ (t +:+ u).
Proof.
  induction s as [|c s IH]; [reflexivity|].
  rewrite !app_cons, IH. reflexivity.
Qed.

Lemma length_app s t : String.length (s +:+ t) = String.length s + String.length t.
Proof.
  induction s as [|c s IH]; [reflexivity|].
  rewrite app_cons. simpl. rewrite IH. reflexivity.
Qed.

Lemma toLowerCase_app s t : toLowerCase (s +:+ t) = toLowerCase s +:+ toLowerCase t.
Proof.
  induction s as [|c s IH]; [reflexivity|].
  rewrite app_cons. simpl. rewrite IH, app_cons. reflexivity.
Qed.

Lemma length_toLowerCase s : String.length (toLowerCase s) = String.length s.
Proof. induction s as [|c s IH]; simpl; congruence. Qed.

Lemma replaceAZ_app pre s t :
  replaceAZ pre (s +:+ t) = replaceAZ pre s +:+ replaceAZ pre t.
Proof.
  induction s as [|c s IH]; [reflexivity|].
  rewrite app_cons. simpl. rewrite IH.
  destruct (isAZ c); rewrite ?app_assoc', ?app_cons; reflexivity.
Qed.

Lemma replaceAZ_none pre s :
  allChars (fun c => negb (isAZ c)) s = true -> replaceAZ pre s = s.
Proof.
  induction s as [|c s IH]; [reflexivity|]. simpl.
  intros [Hc Hs]%andb_prop. destruct (isAZ c); [discriminate|].
  rewrite IH by exact Hs. reflexivity.
Qed.

Lemma allChars_impl (p q : ascii -> bool) s :
  (forall c, p c = true -> q c = true) -> allChars p s = true -> allChars q s = true.
Proof.
  intros Hpq. induction s as [|c s IH]; [reflexivity|]. simpl.
  intros [Hc Hs]%andb_prop. rewrite (Hpq _ Hc), IH by exact Hs. reflexivity.
Qed.

Lemma countChars_app p s t : countChars p (s +:+ t) = countChars p s + countChars p t.
Proof.
  induction s as [|c s IH]; [reflexivity|].
  rewrite app_cons. simpl. rewrite IH. lia.
Qed.

Lemma countChars_none p s :
  allChars (fun c => negb (p c)) s = true -> countChars p s = 0.
Proof.
  induction s as [|c s IH]; [reflexivity|]. simpl.
  intros [Hc Hs]%andb_prop. destruct (p c); [discriminate|].
  rewrite IH by exact Hs. reflexivity.
Qed.

Lemma length_replaceAZ pre s :
  String.length (replaceAZ pre s)
  = String.length s + String.length pre * countChars isAZ s.
Proof.
  induction s as [|c s IH]; [simpl; lia|]. simpl.
  destruct (isAZ c); rewrite ?length_app; simpl; rewrite IH; lia.
Qed.

Lemma length_slice n s : String.length (slice n s) = String.length s - n.
Proof.
  revert s. induction n as [|n IH]; intros [|c s]; simpl; try lia.
  apply IH.
Qed.

Lemma capitalized_replaceAZ pre w :
  isCapitalizedWord w = true -> replaceAZ pre w = pre +:+ w.
Proof.
  destruct w as [|c r]; [discriminate|]. simpl.
  intros [Hc Hr]%andb_prop. rewrite Hc.
  rewrite replaceAZ_none; [reflexivity|].
  eapply allChars_impl; [|exact Hr]. intros d Hd. rewrite az_not_AZ by exact Hd. reflexivity.
Qed.

Lemma lower_AZ_az c : isAZ c = true -> isaz (toLowerCaseChar c) = true.
Proof. each_ascii c. Qed.

Lemma removeChar_app c s t : removeChar c (s +:+ t) = removeChar c s +:+ removeChar c t.
Proof.
  induction s as [|d s IH]; [reflexivity|].
  rewrite app_cons. simpl. rewrite IH. destruct (isChar c d); reflexivity.
Qed.

Lemma removeChar_none c s :
  allChars (fun d => negb (isChar c d)) s = true -> removeChar c s = s.
Proof.
  induction s as [|d s IH]; [reflexivity|]. simpl.
  intros [Hd Hs]%andb_prop. destruct (isChar c d); [discriminate|].
  rewrite IH by exact Hs. reflexivity.
Qed.

Lemma removeChar_self c : removeChar c (String c "") = "".
Proof. simpl. unfold isChar. rewrite Ascii.eqb_refl. reflexivity. Qed.

(** ** Capitalized words *)

Lemma concat_cons2 sep x y ys :
  String.concat sep (x :: y :: ys) = x +:+ sep +:+ String.concat sep (y :: ys).
Proof. reflexivity. Qed.

Lemma capitalized_allChars (p : ascii -> bool) w :
  (forall c, isAZ c = true -> p c = true) ->
  (forall c, isaz c = true -> p c = true) ->
  isCapitalizedWord w = true -> allChars p w = true.
Proof.
  intros HU HL. destruct w as [|c r]; [discriminate|]. simpl.
  intros [Hc Hr]%andb_prop. rewrite (HU _ Hc). simpl.
  eapply allChars_impl; [exact HL | exact Hr].
Qed.

Lemma capitalized_lower_az w :
  isCapitalizedWord w = true -> allChars isaz (toLowerCase w) = true.
Proof.
  destruct w as [|c r]; [discriminate|]. simpl.
  intros [Hc Hr]%andb_prop. rewrite (lower_AZ_az _ Hc). simpl.
  induction r as [|d r IH]; [reflexivity|]. simpl in *.
  apply andb_prop in Hr as [Hd Hr].
  rewrite (lower_of_az _ Hd), Hd, IH by exact Hr. reflexivity.
Qed.

Lemma capitalized_nonempty w : isCapitalizedWord w = true -> w <> "".
Proof. destruct w; [discriminate | discriminate]. Qed.

Lemma pascal_inv ws :
  isPascalCase ws = true ->
  exists w rest, ws = w :: rest /\ isCapitalizedWord w = true
                 /\ forallb isCapitalizedWord rest = true.
Proof.
  unfold isPascalCase. destruct ws as [|w rest]; [discriminate|]. simpl.
  intros [Hw Hrest]%andb_prop. exists w, rest. auto.
Qed.

Lemma replaceAZ_words pre w rest :
  isCapitalizedWord w = true -> forallb isCapitalizedWord rest = true ->
  replaceAZ pre (identifier (w :: rest)) = pre +:+ String.concat pre (w :: rest).
Proof.
  unfold identifier. revert w. induction rest as [|y ys IH]; intros w Hw Hrest.
  - simpl. apply capitalized_replaceAZ, Hw.
  - simpl in Hrest. apply andb_prop in Hrest as [Hy Hys].
    rewrite !concat_cons2, app_empty_l, replaceAZ_app, (IH y Hy Hys).
    rewrite (capitalized_replaceAZ _ _ Hw), app_assoc'. reflexivity.
Qed.

Lemma toLowerCase_concat sep ws :
  toLowerCase (String.concat sep ws)
  = String.concat (toLowerCase sep) (map toLowerCase ws).
Proof.
  induction ws as [|x [|y ys] IH]; [reflexivity | reflexivity |].
  rewrite concat_cons2, !toLowerCase_app, IH. reflexivity.
Qed.

Lemma toKebabCase_words w rest :
  isCapitalizedWord w = true -> forallb isCapitalizedWord rest = true ->
  toKebabCase (identifier (w :: rest))
  = String.concat "-" (map toLowerCase (w :: rest)).
Proof.
  intros Hw Hrest. unfold toKebabCase.
  rewrite (replaceAZ_words _ _ _ Hw Hrest), toLowerCase_app, toLowerCase_concat.
  reflexivity.
Qed.

Lemma countChars_concat p sep ws :
  Forall (fun w => countChars p w = 0) ws ->
  countChars p (String.concat sep ws) = countChars p sep * (length ws - 1).
Proof.
  induction 1 as [|x [|y ys] Hx Hys IH]; [simpl; lia | simpl; lia |].
  rewrite concat_cons2, !countChars_app, IH, Hx. simpl. lia.
Qed.

Lemma removeChar_concat c ws :
  Forall (fun w => allChars (fun d => negb (isChar c d)) w = true) ws ->
  removeChar c (String.concat (String c "") ws) = identifier ws.
Proof.
  unfold identifier.
  induction 1 as [|x [|y ys] Hx Hys IH]; [reflexivity | |].
  - simpl. apply removeChar_none, Hx.
  - rewrite !concat_cons2, !removeChar_app, IH, removeChar_self.
    rewrite (removeChar_none _ _ Hx). reflexivity.
Qed.

Lemma toLowerCase_nonempty s : s <> "" -> toLowerCase s <> "".
Proof. destruct s; [congruence | discriminate]. Qed.

Lemma lowered_segments ws :
  forallb isCapitalizedWord ws = true ->
  Forall (fun seg => seg <> "" /\ allChars isaz seg = true) (map toLowerCase ws).
Proof.
  induction ws as [|w ws IH]; simpl; [constructor|].
  intros [Hw Hws]%andb_prop. constructor; [|apply IH, Hws].
  split; [apply toLowerCase_nonempty, capitalized_nonempty, Hw|].
  apply capitalized_lower_az, Hw.
Qed.

Lemma firstChar_app s t : s <> "" -> firstChar (s +:+ t) = firstChar s.
Proof. destruct s; [congruence | reflexivity]. Qed.

Lemma firstChar_concat sep x xs :
  x <> "" -> firstChar (String.concat sep (x :: xs)) = firstChar x.
Proof.
  intros Hx. destruct xs as [|y ys]; [reflexivity|].
  rewrite concat_cons2. apply firstChar_app, Hx.
Qed.

Lemma firstChar_allChars p s c :
  allChars p s = true -> firstChar s = Some c -> p c = true.
Proof.
  destruct s as [|d r]; [discriminate|]. simpl.
  intros [Hd _]%andb_prop [= <-]. exact Hd.
Qed.

Lemma az_segment_no_hyphen seg :
  allChars isaz seg = true -> countChars (isChar hyphen) seg = 0.
Proof.
  intros H. apply countChars_none. eapply allChars_impl; [|exact H].
  intros c Hc. rewrite az_not_hyphen by exact Hc. reflexivity.
Qed.

Lemma countChars_toLowerCase_upper s : countChars isUpperCase (toLowerCase s) = 0.
Proof.
  induction s as [|c s IH]; [reflexivity|]. simpl.
  rewrite lower_not_upper, IH. reflexivity.
Qed.

Lemma countChars_slice_le p n s : countChars p (slice n s) <= countChars p s.
Proof.
  revert s. induction n as [|n IH]; intros [|c s]; simpl; try lia.
  specialize (IH s). lia.
Qed.

(** C1.  For an identifier made of one or more capitalized words, the slug
    is the lowercased words joined by single hyphens.  Its segments are the
    lowercased words, each of them non-empty and free of hyphens, so there
    is no leading hyphen and no empty segment; a one-word identifier is just
    lowercased.  The two sample identifiers give [circle-image-cropper] and
    [h-t-t-p-client]. *)
Theorem toKebabCase_capitalized_words (ws : list string) :
  isPascalCase ws = true ->
  toKebabCase (identifier ws) = String.concat "-" (map toLowerCase ws)
  /\ Forall (fun seg => seg <> "" /\ countChars (isChar hyphen) seg = 0)
            (map toLowerCase ws)
  /\ firstChar (toKebabCase (identifier ws)) <> Some hyphen
  /\ (forall w, ws = [w] -> toKebabCase w = toLowerCase w)
  /\ toKebabCase "CircleImageCropper" = "circle-image-cropper"
  /\ toKebabCase "HTTPClient" = "h-t-t-p-client".
Proof.
  intros Hp. destruct (pascal_inv ws Hp) as (w & rest & -> & Hw & Hrest).
  assert (Hall : forallb isCapitalizedWord (w :: rest) = true)
    by (simpl; rewrite Hw, Hrest; reflexivity).
  pose proof (toKebabCase_words w rest Hw Hrest) as Heq.
  pose proof (lowered_segments _ Hall) as Hsegs.
  repeat split; try reflexivity.
  - exact Heq.
  - eapply Forall_impl; [exact Hsegs|].
    intros seg [Hne Haz]. split; [exact Hne | apply az_segment_no_hyphen, Haz].
  - rewrite Heq. simpl map in *. apply Forall_inv in Hsegs as [Hne Haz].
    rewrite firstChar_concat by exact Hne.
    intros Hfirst. pose proof (firstChar_allChars _ _ _ Haz Hfirst). discriminate.
  - intros w' [= -> ->]. exact Heq.
Qed.

Lemma toKebabCase_capitalized_words_witness :
  let ws := ["H"; "T"; "T"; "P"; "Client"] in
  isPascalCase ws = true
  /\ toKebabCase (identifier ws) = String.concat "-" (map toLowerCase ws).
Proof.
  split; [reflexivity|].
  apply (toKebabCase_capitalized_words ["H"; "T"; "T"; "P"; "Client"]).
  reflexivity.
Defined.

(** ** Trimming *)

Lemma letter_not_space c : isLetter c = true -> isWhiteSpace c = false.
Proof. each_ascii c. Qed.

Lemma trimStart_id s :
  (forall c, firstChar s = Some c -> isWhiteSpace c = false) -> trimStart s = s.
Proof.
  destruct s as [|c r]; [reflexivity|]. simpl. intros H.
  rewrite (H c eq_refl). reflexivity.
Qed.

Lemma trimEnd_id s :
  (forall c, lastChar s = Some c -> isWhiteSpace c = false) -> trimEnd s = s.
Proof.
  induction s as [|c r IH]; [reflexivity|]. intros H.
  destruct r as [|d r'].
  - simpl. rewrite (H c eq_refl). reflexivity.
  - change (trimEnd (String c (String d r')))
      with (let r1 := trimEnd (String d r') in
            if isWhiteSpace c && isEmpty r1 then "" else String c r1).
    rewrite (IH H). simpl. rewrite andb_false_r. reflexivity.
Qed.

Lemma length_trimStart s : String.length (trimStart s) <= String.length s.
Proof.
  induction s as [|c r IH]; simpl; [lia|].
  destruct (isWhiteSpace c); simpl; lia.
Qed.

Lemma length_trimEnd s : String.length (trimEnd s) <= String.length s.
Proof.
  induction s as [|c r IH]; simpl; [lia|].
  destruct (isWhiteSpace c && isEmpty (trimEnd r)); simpl; lia.
Qed.

Lemma lastChar_app s t : t <> "" -> lastChar (s +:+ t) = lastChar t.
Proof.
  intros Ht. induction s as [|c s IH]; [reflexivity|].
  rewrite app_cons. simpl. rewrite IH.
  destruct (s +:+ t) eqn:E; [|reflexivity].
  destruct s; [rewrite app_empty_l in E; congruence | discriminate].
Qed.

Lemma lastChar_allChars p s c :
  allChars p s = true -> lastChar s = Some c -> p c = true.
Proof.
  induction s as [|d r IH]; [discriminate|]. simpl.
  intros [Hd Hr]%andb_prop. destruct r as [|e r'].
  - intros [= <-]. exact Hd.
  - apply IH, Hr.
Qed.

Lemma lastChar_some s : s <> "" -> exists c, lastChar s = Some c.
Proof.
  induction s as [|d r IH]; [congruence|]. intros _.
  destruct r as [|e r']; [exists d; reflexivity|].
  apply IH. discriminate.
Qed.

Lemma app_nonempty_r s t : t <> "" -> s +:+ t <> "".
Proof. destruct s; [rewrite app_empty_l; auto | discriminate]. Qed.

Lemma app_nonempty_l s t : s <> "" -> s +:+ t <> "".
Proof. destruct s; [congruence | discriminate]. Qed.

Lemma concat_nonempty sep x xs : x <> "" -> String.concat sep (x :: xs) <> "".
Proof.
  intros Hx. destruct xs as [|y ys]; [exact Hx|].
  rewrite concat_cons2. apply app_nonempty_l, Hx.
Qed.

Lemma lastChar_concat p sep x xs c :
  Forall (fun w => w <> "" /\ allChars p w = true) (x :: xs) ->
  lastChar (String.concat sep (x :: xs)) = Some c -> p c = true.
Proof.
  revert x. induction xs as [|y ys IH]; intros x Hall.
  - apply Forall_inv in Hall as [_ Hx]. simpl. apply lastChar_allChars, Hx.
  - rewrite concat_cons2.
    pose proof (Forall_inv_tail Hall) as Htail.
    pose proof (Forall_inv Htail) as [Hy _].
    rewrite lastChar_app
      by (apply app_nonempty_r, concat_nonempty, Hy).
    rewrite lastChar_app by (apply concat_nonempty, Hy).
    apply IH, Htail.
Qed.

Lemma capitalized_letters ws :
  forallb isCapitalizedWord ws = true ->
  Forall (fun w => w <> "" /\ allChars isLetter w = true) ws.
Proof.
  induction ws as [|w ws IH]; simpl; [constructor|].
  intros [Hw Hws]%andb_prop. constructor; [|apply IH, Hws].
  split; [apply capitalized_nonempty, Hw|].
  apply capitalized_allChars; [| |exact Hw]; intros c Hc; unfold isLetter;
    rewrite Hc; auto using orb_true_r.
Qed.

Lemma toTitleCase_words w rest :
  isCapitalizedWord w = true -> forallb isCapitalizedWord rest = true ->
  toTitleCase (identifier (w :: rest)) = String.concat " " (w :: rest).
Proof.
  intros Hw Hrest. unfold toTitleCase, trim.
  rewrite (replaceAZ_words _ _ _ Hw Hrest).
  assert (Hall : Forall (fun w => w <> "" /\ allChars isLetter w = true) (w :: rest))
    by (apply capitalized_letters; simpl; rewrite Hw, Hrest; reflexivity).
  pose proof (Forall_inv Hall) as [Hne Hletters].
  change (trimStart (" " +:+ String.concat " " (w :: rest)))
    with (trimStart (String.concat " " (w :: rest))).
  rewrite trimStart_id.
  - apply trimEnd_id. intros c Hc. apply letter_not_space.
    exact (lastChar_concat _ _ _ _ _ Hall Hc).
  - rewrite firstChar_concat by exact Hne. intros c Hc.
    apply letter_not_space. exact (firstChar_allChars _ _ _ Hletters Hc).
Qed.

Lemma pascal_length ws : isPascalCase ws = true -> 1 <= length ws.
Proof. intros (w & rest & -> & _)%pascal_inv. simpl. lia. Qed.

(** C4.  For an identifier made of [n >= 1] capitalized words, the slug
    holds exactly [n - 1] hyphens and no uppercase letter. *)
Theorem toKebabCase_hyphen_count (ws : list string) :
  isPascalCase ws = true ->
  1 <= length ws
  /\ countChars (isChar hyphen) (toKebabCase (identifier ws)) = length ws - 1
  /\ countChars isUpperCase (toKebabCase (identifier ws)) = 0.
Proof.
  intros Hp. split; [apply pascal_length, Hp|].
  destruct (pascal_inv ws Hp) as (w & rest & -> & Hw & Hrest).
  assert (Hall : forallb isCapitalizedWord (w :: rest) = true)
    by (simpl; rewrite Hw, Hrest; reflexivity).
  split.
  - rewrite (toKebabCase_words w rest Hw Hrest), countChars_concat.
    + rewrite length_map. simpl. lia.
    + eapply Forall_impl; [exact (lowered_segments _ Hall)|].
      intros seg [_ Haz]. apply az_segment_no_hyphen, Haz.
  - unfold toKebabCase.
    pose proof (countChars_slice_le isUpperCase 1
                  (toLowerCase (replaceAZ "-" (identifier (w :: rest))))) as Hle.
    rewrite countChars_toLowerCase_upper in Hle. lia.
Qed.

Lemma toKebabCase_hyphen_count_witness :
  let ws := ["Sg"; "Tax"; "Calculator"] in
  isPascalCase ws = true
  /\ countChars (isChar hyphen) (toKebabCase (identifier ws)) = length ws - 1.
Proof.
  split; [reflexivity|].
  apply (toKebabCase_hyphen_count ["Sg"; "Tax"; "Calculator"]).
  reflexivity.
Defined.

(** C5.  For an identifier made of one or more capitalized words, the title
    with its spaces removed and then lowercased is the slug with its hyphens
    removed. *)
Theorem title_and_slug_agree (ws : list string) :
  isPascalCase ws = true ->
  toLowerCase (removeChar space (toTitleCase (identifier ws)))
  = removeChar hyphen (toKebabCase (identifier ws)).
Proof.
  intros Hp. destruct (pascal_inv ws Hp) as (w & rest & -> & Hw & Hrest).
  assert (Hall : forallb isCapitalizedWord (w :: rest) = true)
    by (simpl; rewrite Hw, Hrest; reflexivity).
  rewrite (toTitleCase_words w rest Hw Hrest), (toKebabCase_words w rest Hw Hrest).
  pose proof (removeChar_concat space (w :: rest)) as Hs.
  pose proof (removeChar_concat hyphen (map toLowerCase (w :: rest))) as Hh.
  change (String space "") with " " in Hs.
  change (String hyphen "") with "-" in Hh.
  rewrite Hs, Hh.
  - unfold identifier. apply (toLowerCase_concat "").
  - eapply Forall_impl; [exact (lowered_segments _ Hall)|].
    intros seg [_ Haz]. eapply allChars_impl; [|exact Haz].
    intros c Hc. rewrite az_not_hyphen by exact Hc. reflexivity.
  - eapply Forall_impl; [exact (capitalized_letters _ Hall)|].
    intros x [_ Hx]. eapply allChars_impl; [|exact Hx].
    intros c [Hc|Hc]%orb_prop;
      [rewrite AZ_not_blank by exact Hc | rewrite az_not_blank by exact Hc];
      reflexivity.
Qed.

Lemma title_and_slug_agree_witness :
  let ws := ["Circle"; "Image"; "Cropper"] in
  isPascalCase ws = true
  /\ toLowerCase (removeChar space (toTitleCase (identifier ws)))
     = removeChar hyphen (toKebabCase (identifier ws)).
Proof.
  split; [reflexivity|].
  apply (title_and_slug_agree ["Circle"; "Image"; "Cropper"]).
  reflexivity.
Defined.

(** C6.  For an identifier made of one or more capitalized words, the title
    is the words joined by single spaces: a space sits before every
    uppercase letter but the first.  The title neither starts nor ends with
    white space, a one-word identifier comes back unchanged, and
    [SgTaxCalculator] gives [Sg Tax Calculator]. *)
Theorem toTitleCase_capitalized_words (ws : list string) :
  isPascalCase ws = true ->
  toTitleCase (identifier ws) = String.concat " " ws
  /\ toTitleCase (identifier ws) = slice 1 (replaceAZ " " (identifier ws))
  /\ (exists c d, firstChar (toTitleCase (identifier ws)) = Some c
                  /\ lastChar (toTitleCase (identifier ws)) = Some d
                  /\ isWhiteSpace c = false /\ isWhiteSpace d = false)
  /\ (forall w, ws = [w] -> toTitleCase w = w)
  /\ toTitleCase "SgTaxCalculator" = "Sg Tax Calculator".
Proof.
  intros Hp. destruct (pascal_inv ws Hp) as (w & rest & -> & Hw & Hrest).
  assert (Hall : forallb isCapitalizedWord (w :: rest) = true)
    by (simpl; rewrite Hw, Hrest; reflexivity).
  pose proof (toTitleCase_words w rest Hw Hrest) as Heq.
  pose proof (capitalized_letters _ Hall) as Hletters.
  pose proof (Forall_inv Hletters) as [Hne Hw'].
  split; [exact Heq|]. split; [|split; [|split; [|reflexivity]]].
  - rewrite Heq, (replaceAZ_words _ _ _ Hw Hrest). reflexivity.
  - rewrite Heq.
    destruct (lastChar_some (String.concat " " (w :: rest)))
      as [d Hd]; [apply concat_nonempty, Hne|].
    destruct w as [|c r]; [congruence|].
    exists c, d. split; [rewrite firstChar_concat by discriminate; reflexivity|].
    split; [exact Hd|]. split; apply letter_not_space.
    + exact (firstChar_allChars _ _ _ Hw' eq_refl).
    + exact (lastChar_concat _ _ _ _ _ Hletters Hd).
  - intros w' [= -> ->]. exact Heq.
Qed.

Lemma toTitleCase_capitalized_words_witness :
  let ws := ["Sg"; "Tax"; "Calculator"] in
  isPascalCase ws = true
  /\ toTitleCase (identifier ws) = String.concat " " ws.
Proof.
  split; [reflexivity|].
  apply (toTitleCase_capitalized_words ["Sg"; "Tax"; "Calculator"]).
  reflexivity.
Defined.

(** ** Arbitrary input *)

Lemma length_toKebabCase s :
  String.length (toKebabCase s) = String.length s + countChars isAZ s - 1.
Proof.
  unfold toKebabCase.
  rewrite length_slice, length_toLowerCase, length_replaceAZ. simpl. lia.
Qed.

Lemma length_toTitleCase s :
  String.length (toTitleCase s) <= String.length s + countChars isAZ s.
Proof.
  unfold toTitleCase, trim.
  pose proof (length_trimEnd (trimStart (replaceAZ " " s))).
  pose proof (length_trimStart (replaceAZ " " s)).
  pose proof (length_replaceAZ " " s) as Hlen. simpl in Hlen. lia.
Qed.

(** C9.  The slug computation written out in the page generator agrees with
    the exported [toKebabCase] on every string. *)
Theorem pageName_is_toKebabCase (s : string) : pageName s = toKebabCase s.
Proof. unfold pageName, toKebabCase. reflexivity. Qed.

(** C10.  On input without a letter in [A-Z] the slug is the lowercased
    input without its first code unit.  So a non-empty input of that kind
    never comes back as itself, an input of one code unit gives the empty
    slug, and [foo], [a] and the empty string give [oo], the empty string and
    the empty string. *)
Theorem toKebabCase_without_capitals (s : string) :
  allChars (fun c => negb (isAZ c)) s = true ->
  toKebabCase s = slice 1 (toLowerCase s)
  /\ (s <> "" -> toKebabCase s <> s)
  /\ (String.length s = 1 -> toKebabCase s = "")
  /\ (allChars isaz s = true -> toKebabCase s = slice 1 s)
  /\ toKebabCase "foo" = "oo" /\ toKebabCase "a" = "" /\ toKebabCase "" = "".
Proof.
  intros Hs.
  assert (Heq : toKebabCase s = slice 1 (toLowerCase s))
    by (unfold toKebabCase; rewrite (replaceAZ_none _ _ Hs); reflexivity).
  split; [exact Heq|]. split; [|split; [|split; [|repeat split]]].
  - intros Hne Hfix. apply (f_equal String.length) in Hfix.
    rewrite Heq, length_slice, length_toLowerCase in Hfix.
    destruct s; [congruence | simpl in Hfix; lia].
  - rewrite Heq. destruct s as [|c [|d r]]; simpl; try discriminate. reflexivity.
  - intros Haz. rewrite Heq. f_equal.
    clear Hs Heq. induction s as [|c r IH]; [reflexivity|]. simpl in *.
    apply andb_prop in Haz as [Hc Hr].
    rewrite (lower_of_az _ Hc), IH by exact Hr. reflexivity.
Qed.

Lemma toKebabCase_without_capitals_witness :
  allChars (fun c => negb (isAZ c)) "foo" = true
  /\ toKebabCase "foo" = slice 1 (toLowerCase "foo")
  /\ toKebabCase "foo" <> "foo".
Proof.
  split; [reflexivity|].
  destruct (toKebabCase_without_capitals "foo" eq_refl) as (H1 & H2 & _).
  split; [exact H1 | apply H2; discriminate].
Defined.

(** ** The generator *)

Lemma run_loop fs w :
  forOf fs loopBody w
  = (match refused fs with
     | None => Normal tt
     | Some path => Throw (ENAMETOOLONG path)
     end,
     World (fold_left writePage (written fs) (pages w))
           (console w ++ map (fun f => Generated (destination f)) (written fs))).
Proof.
  revert w. induction fs as [|f fs IH]; intros [dir out].
  - simpl. rewrite app_nil_r. reflexivity.
  - cbn [forOf refused written]. unfold bind at 1.
    unfold loopBody at 1, bind at 1, writeFileSync at 1.
    fold (destination f). destruct (nameFits (destination f)) eqn:E.
    + cbn [consoleLog pages console]. rewrite IH. cbn [pages console fold_left map].
      rewrite <- app_assoc. reflexivity.
    + cbn [pages console fold_left map]. rewrite app_nil_r. reflexivity.
Qed.

Lemma refused_none fs :
  refused fs = None <-> (forall f, In f fs -> nameFits (destination f) = true).
Proof.
  induction fs as [|f fs IH]; simpl.
  - split; [intros _ g [] | reflexivity].
  - destruct (nameFits (destination f)) eqn:E.
    + rewrite IH. split.
      * intros H g [<-|Hg]; [exact E | exact (H g Hg)].
      * intros H g Hg. apply H. right. exact Hg.
    + split; [discriminate|]. intros H.
      rewrite (H f (or_introl eq_refl)) in E. discriminate.
Qed.

Lemma written_all fs : refused fs = None -> written fs = fs.
Proof.
  induction fs as [|f fs IH]; simpl; [reflexivity|].
  destruct (nameFits (destination f)); [|discriminate].
  intros H. rewrite (IH H). reflexivity.
Qed.

Lemma written_In fs f : In f (written fs) -> In f fs.
Proof.
  induction fs as [|g fs IH]; simpl; [auto|].
  destruct (nameFits (destination g)); [|intros []].
  intros [->|H]; [left; reflexivity | right; exact (IH H)].
Qed.

Lemma run_script listing dir :
  generatePages listing (World dir [])
  = (match refused (files listing) with
     | None => Normal tt
     | Some path => Throw (ENAMETOOLONG path)
     end,
     World (fold_left writePage (written (files listing)) dir)
           (map (fun f => Generated (destination f)) (written (files listing))
            ++ match refused (files listing) with
               | None => [GeneratedPages (length (files listing))]
               | Some _ => []
               end)).
Proof.
  unfold generatePages. cbv zeta. unfold bind at 1. rewrite run_loop.
  destruct (refused (files listing)); cbn [pages console app consoleLog].
  - rewrite app_nil_r. reflexivity.
  - reflexivity.
Qed.

Lemma generate_writes listing dir :
  generate listing dir = fold_left writePage (written (files listing)) dir.
Proof. unfold generate. rewrite run_script. reflexivity. Qed.

Lemma files_app l k : files (l ++ k) = files l ++ files k.
Proof. apply List.filter_app. Qed.

Lemma files_cons_tsx f l :
  endsWith f ".tsx" = true -> files (f :: l) = f :: files l.
Proof. intros H. unfold files. simpl. rewrite H. reflexivity. Qed.

Lemma writes_over fs (dir : gmap string string) :
  fold_left writePage fs dir = fold_left writePage fs ∅ ∪ dir.
Proof.
  revert dir. induction fs as [|f fs IH]; intros dir; simpl.
  - rewrite (left_id_L ∅ (∪)). reflexivity.
  - rewrite (IH (writePage dir f)), (IH (writePage ∅ f)).
    unfold writePage. rewrite (insert_union_singleton_l dir).
    rewrite insert_empty, (assoc_L (∪)). reflexivity.
Qed.

Lemma writes_untouched fs (dir : gmap string string) k :
  (forall f, In f fs -> destination f <> k) ->
  fold_left writePage fs dir !! k = dir !! k.
Proof.
  revert dir. induction fs as [|f fs IH]; intros dir Hk; [reflexivity|].
  simpl. rewrite IH by (intros g Hg; apply Hk; right; exact Hg).
  unfold writePage. apply lookup_insert_ne, Hk. left. reflexivity.
Qed.

Lemma writes_written fs (dir : gmap string string) path :
  (exists f, In f fs /\ destination f = path) ->
  exists f, In f fs /\ destination f = path
            /\ fold_left writePage fs dir !! path = Some (artifact f).
Proof.
  revert dir. induction fs as [|g fs IH]; intros dir [f [Hin Hf]]; [destruct Hin|].
  destruct (existsb (fun h => String.eqb (destination h) path) fs) eqn:E.
  - apply existsb_exists in E as [h [Hh Heq]]. apply String.eqb_eq in Heq.
    destruct (IH (writePage dir g) (ex_intro _ h (conj Hh Heq)))
      as (h' & Hin' & Hd' & Hlook).
    exists h'. split; [right; exact Hin'|]. split; [exact Hd' | exact Hlook].
  - assert (Hnone : forall h, In h fs -> destination h <> path).
    { intros h Hh Heq.
      assert (existsb (fun h => String.eqb (destination h) path) fs = true)
        by (apply existsb_exists; exists h; split;
            [exact Hh | apply String.eqb_eq, Heq]).
      congruence. }
    destruct Hin as [->|Hin]; [|destruct (Hnone f Hin Hf)].
    exists f. split; [left; reflexivity|]. split; [exact Hf|].
    simpl. rewrite (writes_untouched _ _ _ Hnone). unfold writePage.
    rewrite Hf. apply lookup_insert_eq.
Qed.

(** C3.  A run is a function of the listing and of the pages directory it
    starts from.  The pages it writes depend on the listing alone and are
    laid over what the directory held, and running it again on the directory
    it produced changes nothing: every page is there already, with the same
    content. *)
Theorem generate_idempotent (listing : list string) (dir : gmap string string) :
  generate listing (generate listing dir) = generate listing dir
  /\ generate listing dir = generate listing ∅ ∪ dir.
Proof.
  rewrite !generate_writes. split; [|apply writes_over].
  rewrite (writes_over _ (fold_left writePage (written (files listing)) dir)).
  rewrite (writes_over _ dir), (assoc_L (∪)), (idemp_L (∪)). reflexivity.
Qed.

(** The template literal around the three places where the component name
    is spliced in. *)
Lemma pageContent_parts cn :
  pageContent cn
  = String.concat "" ["---"; nl; "import Layout from "; dq;
                      "@/layouts/Layout.astro"; dq; ";"; nl; "import "]
    +:+ cn +:+ (" from " +:+ dq +:+ "@/tools/")
    +:+ cn +:+ (dq +:+ ";" +:+ nl +:+ "---" +:+ nl +:+ nl +:+ "<Layout>"
                +:+ nl +:+ tab +:+ "<")
    +:+ cn +:+ (" client:load />" +:+ nl +:+ "</Layout>" +:+ nl).
Proof. reflexivity. Qed.

Lemma length_pageContent cn :
  String.length (pageContent cn) = 116 + 3 * String.length cn.
Proof. rewrite pageContent_parts, !length_app. simpl. lia. Qed.

Lemma app_inv_head' s x y : s +:+ x = s +:+ y -> x = y.
Proof.
  induction s as [|c s IH]; [auto|].
  rewrite !app_cons. intros [= H]. apply IH, H.
Qed.

Lemma app_inj_length a b x y :
  String.length a = String.length b -> a +:+ x = b +:+ y -> a = b.
Proof.
  revert b. induction a as [|c a IH]; intros [|d b]; simpl; try discriminate.
  - reflexivity.
  - intros [= Hlen]. rewrite !app_cons. intros [= -> H].
    f_equal. exact (IH _ Hlen H).
Qed.

Lemma pageContent_inj a b : pageContent a = pageContent b -> a = b.
Proof.
  intros H.
  assert (Hlen : String.length a = String.length b).
  { apply (f_equal String.length) in H. rewrite !length_pageContent in H. lia. }
  rewrite !pageContent_parts in H. apply app_inv_head' in H.
  exact (app_inj_length _ _ _ _ Hlen H).
Qed.

(** C7.  Two files of the listing end in [.tsx] and get the same slug, and
    every page file name of the listing is within the limit of the file
    system.  Then the run completes normally: the console holds one notice
    for each file of the listing that ends in [.tsx] (both files among them)
    and the final count over all of them, and nothing is thrown.  The page
    at the shared destination is the one made from a file processed after
    the first: from the second when no file after it has that destination,
    and then it is not the page of the first when their component names
    differ. *)
Theorem collision_last_write_wins
    (pre mid post : list string) (f1 f2 : string) (dir : gmap string string) :
  f1 <> f2 ->
  endsWith f1 ".tsx" = true -> endsWith f2 ".tsx" = true ->
  pageName (componentName f1) = pageName (componentName f2) ->
  let listing := pre ++ f1 :: mid ++ f2 :: post in
  (forall f, In f (files listing) -> nameFits (destination f) = true) ->
  let run := generatePages listing (World dir []) in
  fst run = Normal tt
  /\ console (snd run)
     = map (fun f => Generated (destination f)) (files listing)
       ++ [GeneratedPages (length (files listing))]
  /\ In f1 (files listing) /\ In f2 (files listing)
  /\ (exists later, In later (f2 :: files post)
                    /\ destination later = destination f1
                    /\ pages (snd run) !! destination f1 = Some (artifact later))
  /\ ((forall f, In f (files post) -> destination f <> destination f2) ->
      pages (snd run) !! destination f1 = Some (pageContent (componentName f2))
      /\ (componentName f1 <> componentName f2 ->
          pages (snd run) !! destination f1
          <> Some (pageContent (componentName f1)))).
Proof.
  intros Hne H1 H2 Hslug listing Hfit run.
  assert (Hdest : destination f1 = destination f2)
    by (unfold destination; rewrite Hslug; reflexivity).
  assert (Hfiles : files listing
                   = (files pre ++ f1 :: files mid) ++ f2 :: files post).
  { unfold listing. rewrite files_app, (files_cons_tsx _ _ H1), files_app.
    rewrite (files_cons_tsx _ _ H2), <- app_assoc. reflexivity. }
  assert (Hnone : refused (files listing) = None) by (apply refused_none, Hfit).
  assert (Hrun : run = (Normal tt,
                        World (fold_left writePage (files listing) dir)
                              (map (fun f => Generated (destination f)) (files listing)
                               ++ [GeneratedPages (length (files listing))]))).
  { unfold run. rewrite run_script, Hnone, (written_all _ Hnone). reflexivity. }
  rewrite Hrun. cbn [fst snd pages console].
  split; [reflexivity|]. split; [reflexivity|].
  split; [|split; [|split]].
  - rewrite Hfiles. apply in_or_app. left. apply in_or_app. right. left. reflexivity.
  - rewrite Hfiles. apply in_or_app. right. left. reflexivity.
  - rewrite Hfiles, fold_left_app.
    destruct (writes_written (f2 :: files post)
                (fold_left writePage (files pre ++ f1 :: files mid) dir)
                (destination f1))
      as (later & Hin & Hd & Hlook);
      [exists f2; split; [left; reflexivity | symmetry; exact Hdest]|].
    exists later. split; [exact Hin|]. split; [exact Hd | exact Hlook].
  - intros Hlast.
    assert (Hpage : fold_left writePage (files listing) dir !! destination f2
                    = Some (pageContent (componentName f2))).
    { rewrite Hfiles, fold_left_app. simpl.
      rewrite (writes_untouched _ _ _ Hlast). unfold writePage.
      apply lookup_insert_eq. }
    rewrite Hdest. split; [exact Hpage|].
    intros Hcn. rewrite Hpage. intros Heq.
    apply Hcn. symmetry. apply pageContent_inj. congruence.
Qed.

Lemma collision_last_write_wins_witness :
  let listing := ["Ab.tsx"; "README.md"; "xab.tsx"] in
  "Ab.tsx" <> "xab.tsx"
  /\ endsWith "Ab.tsx" ".tsx" = true /\ endsWith "xab.tsx" ".tsx" = true
  /\ destination "Ab.tsx" = "ab.astro"
  /\ destination "xab.tsx" = "ab.astro"
  /\ fst (generatePages listing (World ∅ [])) = Normal tt
  /\ pages (snd (generatePages listing (World ∅ []))) !! "ab.astro"
     = Some (pageContent "xab")
  /\ console (snd (generatePages listing (World ∅ [])))
     = [Generated "ab.astro"; Generated "ab.astro"; GeneratedPages 2].
Proof.
  split; [discriminate|]. do 4 (split; [reflexivity|]).
  destruct (collision_last_write_wins [] ["README.md"] [] "Ab.tsx" "xab.tsx" ∅)
    as (H1 & H2 & _ & _ & _ & H6);
    [discriminate | reflexivity | reflexivity | reflexivity
    | intros f [<-|[<-|[]]]; reflexivity | ].
  split; [exact H1|]. split; [|exact H2].
  apply H6. intros f [].
Defined.

(** The claim of C7 without the condition on the names: two files of 130
    and 255 bytes get the same slug, their page file name has 256 bytes, and
    the run ends with the first write throwing [ENAMETOOLONG]; no page is
    written and nothing is printed. *)
Lemma collision_name_too_long :
  let f1 := "Xy" +:+ times 124 "A" +:+ ".tsx" in
  let f2 := "qxy" +:+ times 124 "-a" +:+ ".tsx" in
  let run := generatePages [f1; f2] (World ∅ []) in
  f1 <> f2
  /\ utf8Length f1 = 130 /\ utf8Length f2 = 255
  /\ endsWith f1 ".tsx" = true /\ endsWith f2 ".tsx" = true
  /\ pageName (componentName f1) = pageName (componentName f2)
  /\ utf8Length (destination f1) = 256
  /\ fst run = Throw (ENAMETOOLONG (destination f1))
  /\ pages (snd run) !! destination f1 = None
  /\ pages (snd run) = ∅
  /\ console (snd run) = [].
Proof.
  cbv zeta.
  split; [intros H; apply (f_equal String.length) in H; vm_compute in H;
          discriminate H|].
  do 9 (split; [vm_compute; reflexivity|]).
  vm_compute. reflexivity.
Qed.

(** ** File names *)

Lemma componentName_plain stem :
  allChars (fun c => negb (isChar dot c)) stem = true ->
  componentName (stem +:+ ".tsx") = stem.
Proof.
  unfold componentName. induction stem as [|c r IH]; [reflexivity|].
  cbn [allChars]. intros [Hc Hr]%andb_prop.
  rewrite app_cons.
  change (replaceFirst ".tsx" "" (String c (r +:+ ".tsx")))
    with (if String.prefix ".tsx" (String c (r +:+ ".tsx"))
          then "" +:+ slice 4 (String c (r +:+ ".tsx"))
          else String c (replaceFirst ".tsx" "" (r +:+ ".tsx"))).
  assert (Hpre : String.prefix ".tsx" (String c (r +:+ ".tsx")) = false).
  { change (String.prefix ".tsx" (String c (r +:+ ".tsx")))
      with (if ascii_dec "." c then String.prefix "tsx" (r +:+ ".tsx") else false).
    destruct (ascii_dec "." c) as [<-|_]; [discriminate Hc | reflexivity]. }
  rewrite Hpre, (IH Hr). reflexivity.
Qed.

Lemma substring_head s t :
  String.substring 0 (String.length s) (s +:+ t) = s.
Proof.
  induction s as [|c s IH]; [destruct t; reflexivity|].
  rewrite app_cons. simpl. rewrite IH. reflexivity.
Qed.

Lemma substring_tail s t :
  String.substring (String.length s) (String.length t) (s +:+ t) = t.
Proof.
  induction s as [|c s IH]; [|rewrite app_cons; simpl; exact IH].
  rewrite app_empty_l. simpl. induction t as [|d t IHt]; [reflexivity|].
  simpl. rewrite IHt. reflexivity.
Qed.

Lemma endsWith_app s t : endsWith (s +:+ t) t = true.
Proof.
  unfold endsWith. rewrite length_app.
  replace (String.length s + String.length t - String.length t)
    with (String.length s) by lia.
  rewrite substring_tail, String.eqb_refl, andb_true_r.
  apply Nat.leb_le. lia.
Qed.

Lemma stripSuffix_app s t : stripSuffix t (s +:+ t) = s.
Proof.
  unfold stripSuffix. rewrite length_app.
  replace (String.length s + String.length t - String.length t)
    with (String.length s) by lia.
  apply substring_head.
Qed.

(** A file named after a component name without a dot is kept by the
    filter, and the component name comes back by stripping the suffix. *)
Lemma componentName_strips_suffix stem :
  allChars (fun c => negb (isChar dot c)) stem = true ->
  endsWith (stem +:+ ".tsx") ".tsx" = true
  /\ componentName (stem +:+ ".tsx") = stripSuffix ".tsx" (stem +:+ ".tsx")
  /\ destination (stem +:+ ".tsx") = toKebabCase stem +:+ ".astro"
  /\ artifact (stem +:+ ".tsx") = pageContent stem.
Proof.
  intros H. unfold destination, artifact.
  rewrite endsWith_app, stripSuffix_app, (componentName_plain _ H).
  repeat split.
Qed.

(** What a run leaves at a destination: the page of the last file written
    there, and the old content where no file of the listing goes. *)
Lemma generate_last listing1 file listing2 dir :
  endsWith file ".tsx" = true ->
  (forall f, In f (files (listing1 ++ file :: listing2)) ->
     nameFits (destination f) = true) ->
  (forall f, In f (files listing2) -> destination f <> destination file) ->
  generate (listing1 ++ file :: listing2) dir !! destination file
  = Some (artifact file).
Proof.
  intros Hf Hfit Hlast.
  rewrite generate_writes, (written_all _ (proj2 (refused_none _) Hfit)).
  rewrite files_app, (files_cons_tsx _ _ Hf), fold_left_app.
  simpl. rewrite (writes_untouched _ _ _ Hlast). apply lookup_insert_eq.
Qed.

Lemma generate_elsewhere listing dir path :
  (forall f, In f (files listing) -> destination f <> path) ->
  generate listing dir !! path = dir !! path.
Proof.
  intros H. rewrite generate_writes. apply writes_untouched.
  intros f Hf. apply H, written_In, Hf.
Qed.

(** C2.  The file [My.tsxTool.tsx] ends in [.tsx] and is processed.
    Stripping the suffix leaves [My.tsxTool], while the generator removes
    the first [.tsx] of the name and takes [MyTool.tsx] as the component
    name: the page is written to [my-tool.tsx.astro] and imports
    [MyTool.tsx]; nothing is written for the stripped name. *)
Theorem componentName_first_occurrence :
  let file := "My.tsxTool.tsx" in
  files [file] = [file]
  /\ stripSuffix ".tsx" file = "My.tsxTool"
  /\ componentName file = "MyTool.tsx"
  /\ componentName file <> stripSuffix ".tsx" file
  /\ generate [file] ∅ !! "my-tool.tsx.astro" = Some (pageContent "MyTool.tsx")
  /\ generate [file] ∅
       !! pageFile (toKebabCase (stripSuffix ".tsx" file)) = None.
Proof.
  cbv zeta. split; [reflexivity|]. split; [reflexivity|].
  split; [reflexivity|]. split; [discriminate|].
  split.
  - apply (generate_last [] "My.tsxTool.tsx" [] ∅ eq_refl).
    + intros f [<-|[]]. reflexivity.
    + intros f [].
  - apply generate_elsewhere. intros f [<-|[]]. discriminate.
Qed.

(** ** Component names and their slugs *)

Lemma upper_of_lower c : isAZ c = true -> toUpperCaseChar (toLowerCaseChar c) = c.
Proof. each_ascii c. Qed.

Lemma lower_of_alnum c :
  isAlnum c = true -> isAZ c = false -> toLowerCaseChar c = c.
Proof. each_ascii c. Qed.

Lemma alnum_not_hyphen c : isAlnum c = true -> isChar hyphen c = false.
Proof. each_ascii c. Qed.

Lemma alnum_lowered_slug c : isAlnum c = true -> isSlugChar (toLowerCaseChar c) = true.
Proof. each_ascii c. Qed.

Lemma AZ_alnum c : isAZ c = true -> isAlnum c = true.
Proof. each_ascii c. Qed.

Lemma AZ_lowered_az c : isAZ c = true -> isaz (toLowerCaseChar c) = true.
Proof. each_ascii c. Qed.

Lemma componentName_alnum s : isComponentName s = true -> allChars isAlnum s = true.
Proof.
  destruct s as [|c r]; [discriminate|]. simpl.
  intros [Hc Hr]%andb_prop. rewrite (AZ_alnum _ Hc), Hr. reflexivity.
Qed.

Lemma replaceAZ_cons_AZ pre c r :
  isAZ c = true -> replaceAZ pre (String c r) = pre +:+ String c (replaceAZ pre r).
Proof. intros H. simpl. rewrite H. reflexivity. Qed.

Lemma replaceAZ_cons_other pre c r :
  isAZ c = false -> replaceAZ pre (String c r) = String c (replaceAZ pre r).
Proof. intros H. simpl. rewrite H. reflexivity. Qed.

(** The lowercased, hyphen-marked name, before its first code unit is
    dropped. *)
Lemma marked_componentName s :
  isComponentName s = true ->
  toLowerCase (replaceAZ "-" s) = String hyphen (toKebabCase s).
Proof.
  destruct s as [|c r]; [discriminate|]. simpl isComponentName.
  intros [Hc _]%andb_prop. unfold toKebabCase.
  rewrite (replaceAZ_cons_AZ _ _ _ Hc). reflexivity.
Qed.

Lemma unmark_marked s :
  allChars isAlnum s = true -> unmark (toLowerCase (replaceAZ "-" s)) = s.
Proof.
  induction s as [|c r IH]; [reflexivity|]. cbn [allChars].
  intros [Hc Hr]%andb_prop. destruct (isAZ c) eqn:HAZ.
  - rewrite (replaceAZ_cons_AZ _ _ _ HAZ).
    change (toLowerCase ("-" +:+ String c (replaceAZ "-" r)))
      with (String hyphen (String (toLowerCaseChar c) (toLowerCase (replaceAZ "-" r)))).
    change (unmark (String hyphen (String (toLowerCaseChar c)
                                     (toLowerCase (replaceAZ "-" r)))))
      with (String (toUpperCaseChar (toLowerCaseChar c))
              (unmark (toLowerCase (replaceAZ "-" r)))).
    rewrite (upper_of_lower _ HAZ), (IH Hr). reflexivity.
  - rewrite (replaceAZ_cons_other _ _ _ HAZ). cbn [toLowerCase].
    rewrite (lower_of_alnum _ Hc HAZ). cbn [unmark].
    rewrite (alnum_not_hyphen _ Hc), (IH Hr). reflexivity.
Qed.

Lemma componentName_slug_inj a b :
  isComponentName a = true -> isComponentName b = true ->
  toKebabCase a = toKebabCase b -> a = b.
Proof.
  intros Ha Hb Heq.
  rewrite <- (unmark_marked a (componentName_alnum _ Ha)).
  rewrite <- (unmark_marked b (componentName_alnum _ Hb)).
  rewrite (marked_componentName _ Ha), (marked_componentName _ Hb), Heq.
  reflexivity.
Qed.

(** X1.  Two different component names (letters and digits, the first a
    letter in [A-Z]) never get the same slug. *)
Theorem toKebabCase_tells_names_apart (a b : string) :
  isComponentName a = true -> isComponentName b = true ->
  a <> b -> toKebabCase a <> toKebabCase b.
Proof.
  intros Ha Hb Hne Heq. apply Hne. exact (componentName_slug_inj a b Ha Hb Heq).
Qed.

Lemma toKebabCase_tells_names_apart_witness :
  isComponentName "SgTax" = true /\ isComponentName "Sgtax" = true
  /\ toKebabCase "SgTax" <> toKebabCase "Sgtax".
Proof.
  split; [reflexivity|]. split; [reflexivity|].
  apply (toKebabCase_tells_names_apart "SgTax" "Sgtax");
    [reflexivity | reflexivity | discriminate].
Defined.

Lemma allChars_slice p n s : allChars p s = true -> allChars p (slice n s) = true.
Proof.
  revert s. induction n as [|n IH]; intros [|c r]; simpl; auto.
  intros [_ Hr]%andb_prop. apply IH, Hr.
Qed.

Lemma marked_slug_chars s :
  allChars isAlnum s = true ->
  allChars isSlugChar (toLowerCase (replaceAZ "-" s)) = true.
Proof.
  induction s as [|c r IH]; [reflexivity|]. cbn [allChars].
  intros [Hc Hr]%andb_prop. destruct (isAZ c) eqn:HAZ.
  - rewrite (replaceAZ_cons_AZ _ _ _ HAZ).
    change (toLowerCase ("-" +:+ String c (replaceAZ "-" r)))
      with (String hyphen (String (toLowerCaseChar c) (toLowerCase (replaceAZ "-" r)))).
    cbn [allChars]. rewrite (alnum_lowered_slug _ Hc), (IH Hr). reflexivity.
  - rewrite (replaceAZ_cons_other _ _ _ HAZ). cbn [toLowerCase allChars].
    rewrite (alnum_lowered_slug _ Hc), (IH Hr). reflexivity.
Qed.

Lemma marked_without_hyphens s :
  allChars isAlnum s = true ->
  removeChar hyphen (toLowerCase (replaceAZ "-" s)) = toLowerCase s.
Proof.
  induction s as [|c r IH]; [reflexivity|]. cbn [allChars].
  intros [Hc Hr]%andb_prop.
  assert (Hlow : isChar hyphen (toLowerCaseChar c) = false)
    by (revert Hc; clear; each_ascii c).
  destruct (isAZ c) eqn:HAZ.
  - rewrite (replaceAZ_cons_AZ _ _ _ HAZ).
    change (toLowerCase ("-" +:+ String c (replaceAZ "-" r)))
      with (String hyphen (String (toLowerCaseChar c) (toLowerCase (replaceAZ "-" r)))).
    cbn [removeChar toLowerCase]. rewrite Hlow, (IH Hr). reflexivity.
  - rewrite (replaceAZ_cons_other _ _ _ HAZ). cbn [removeChar toLowerCase].
    rewrite Hlow, (IH Hr). reflexivity.
Qed.

Lemma replaceAZ_nonempty pre s : s <> "" -> replaceAZ pre s <> "".
Proof.
  destruct s as [|c r]; [congruence|]. intros _. simpl.
  destruct (isAZ c); [apply app_nonempty_r|]; discriminate.
Qed.

Lemma lastChar_toLowerCase s :
  lastChar (toLowerCase s) = option_map toLowerCaseChar (lastChar s).
Proof.
  induction s as [|c r IH]; [reflexivity|].
  destruct r as [|d r']; [reflexivity|]. exact IH.
Qed.

Lemma lastChar_cons c s : s <> "" -> lastChar (String c s) = lastChar s.
Proof. destruct s; [congruence | reflexivity]. Qed.

Lemma lastChar_replaceAZ pre s : lastChar (replaceAZ pre s) = lastChar s.
Proof.
  induction s as [|c r IH]; [reflexivity|].
  destruct r as [|d r'].
  - simpl. destruct (isAZ c); [|reflexivity].
    apply lastChar_app. discriminate.
  - assert (Hne : replaceAZ pre (String d r') <> "")
      by (apply replaceAZ_nonempty; discriminate).
    transitivity (lastChar (replaceAZ pre (String d r'))); [|exact IH].
    change (replaceAZ pre (String c (String d r')))
      with (if isAZ c then pre +:+ String c (replaceAZ pre (String d r'))
            else String c (replaceAZ pre (String d r'))).
    destruct (isAZ c).
    + rewrite lastChar_app by discriminate. apply lastChar_cons, Hne.
    + apply lastChar_cons, Hne.
Qed.

(** X2.  The slug of a component name is made of [a-z], digits and hyphens
    only; it starts with a letter in [a-z], does not end with a hyphen, and
    taking the hyphens out leaves the lowercased name. *)
Theorem slug_of_componentName (s : string) :
  isComponentName s = true ->
  allChars isSlugChar (toKebabCase s) = true
  /\ (exists c, firstChar (toKebabCase s) = Some c /\ isaz c = true)
  /\ (exists d, lastChar (toKebabCase s) = Some d /\ isChar hyphen d = false)
  /\ removeChar hyphen (toKebabCase s) = toLowerCase s.
Proof.
  intros Hs. pose proof (componentName_alnum _ Hs) as Halnum.
  pose proof (marked_componentName _ Hs) as Hmark.
  split; [apply allChars_slice, marked_slug_chars, Halnum|].
  split; [|split].
  - destruct s as [|c r]; [discriminate|]. simpl in Hs.
    apply andb_prop in Hs as [Hc _]. exists (toLowerCaseChar c). split.
    + unfold toKebabCase. rewrite (replaceAZ_cons_AZ _ _ _ Hc). reflexivity.
    + apply AZ_lowered_az, Hc.
  - assert (Hne : toKebabCase s <> "").
    { destruct s as [|c r]; [discriminate|]. simpl in Hs.
      apply andb_prop in Hs as [Hc _]. unfold toKebabCase.
      rewrite (replaceAZ_cons_AZ _ _ _ Hc). discriminate. }
    assert (Hlast : lastChar (toKebabCase s)
                    = option_map toLowerCaseChar (lastChar s)).
    { rewrite <- (lastChar_cons hyphen _ Hne), <- Hmark.
      rewrite lastChar_toLowerCase, lastChar_replaceAZ. reflexivity. }
    destruct (lastChar_some s) as [d Hd]; [destruct s; [discriminate|discriminate]|].
    exists (toLowerCaseChar d). rewrite Hlast, Hd. split; [reflexivity|].
    pose proof (lastChar_allChars _ _ _ Halnum Hd) as Hdal.
    revert Hdal. clear. each_ascii d.
  - rewrite <- (marked_without_hyphens _ Halnum), Hmark. reflexivity.
Qed.

Lemma slug_of_componentName_witness :
  isComponentName "Base64Decoder2" = true
  /\ allChars isSlugChar (toKebabCase "Base64Decoder2") = true
  /\ removeChar hyphen (toKebabCase "Base64Decoder2") = toLowerCase "Base64Decoder2".
Proof.
  split; [reflexivity|].
  destruct (slug_of_componentName "Base64Decoder2" eq_refl) as (H1 & _ & _ & H4).
  split; [exact H1 | exact H4].
Defined.

(** ** Titles *)

Lemma removeChar_trimStart s :
  spacesOnly s = true -> removeChar space (trimStart s) = removeChar space s.
Proof.
  unfold spacesOnly. induction s as [|c r IH]; [reflexivity|]. cbn [allChars].
  intros [Hc Hr]%andb_prop. cbn [trimStart].
  destruct (isWhiteSpace c); [|reflexivity].
  cbn [implb] in Hc. cbn [removeChar]. rewrite Hc. apply IH, Hr.
Qed.

Lemma removeChar_trimEnd s :
  spacesOnly s = true -> removeChar space (trimEnd s) = removeChar space s.
Proof.
  unfold spacesOnly. induction s as [|c r IH]; [reflexivity|]. cbn [allChars].
  intros [Hc Hr]%andb_prop. specialize (IH Hr). cbn [trimEnd].
  destruct (isWhiteSpace c); cbn [implb andb] in Hc |- *.
  - destruct (trimEnd r) eqn:E; cbn [isEmpty removeChar]; rewrite Hc, <- IH;
      reflexivity.
  - cbn [removeChar]. rewrite IH. reflexivity.
Qed.

Lemma spacesOnly_trimStart s : spacesOnly s = true -> spacesOnly (trimStart s) = true.
Proof.
  unfold spacesOnly. induction s as [|c r IH]; [reflexivity|]. cbn [allChars trimStart].
  intros H. destruct (isWhiteSpace c) eqn:E.
  - apply andb_prop in H as [_ Hr]. apply IH, Hr.
  - cbn [allChars]. rewrite E. exact H.
Qed.

Lemma titled_spacesOnly s :
  allChars (fun c => negb (isWhiteSpace c)) s = true ->
  spacesOnly (replaceAZ " " s) = true
  /\ removeChar space (replaceAZ " " s) = s.
Proof.
  unfold spacesOnly. induction s as [|c r IH]; [split; reflexivity|]. cbn [allChars].
  intros [Hc Hr]%andb_prop. destruct (IH Hr) as [IH1 IH2].
  assert (Hsp : isChar space c = false) by (revert Hc; clear; each_ascii c).
  apply negb_true_iff in Hc.
  destruct (isAZ c) eqn:HAZ.
  - rewrite (replaceAZ_cons_AZ _ _ _ HAZ).
    change (" " +:+ String c (replaceAZ " " r))
      with (String space (String c (replaceAZ " " r))).
    cbn [allChars removeChar]. rewrite Hc, Hsp, IH1, IH2. split; reflexivity.
  - rewrite (replaceAZ_cons_other _ _ _ HAZ).
    cbn [allChars removeChar]. rewrite Hc, Hsp, IH1, IH2. split; reflexivity.
Qed.

(** X3.  On input without white space the title only adds spaces: taking
    the spaces out of the title gives the input back, whatever its letters,
    digits or punctuation. *)
Theorem toTitleCase_only_adds_spaces (s : string) :
  allChars (fun c => negb (isWhiteSpace c)) s = true ->
  removeChar space (toTitleCase s) = s.
Proof.
  intros Hs. destruct (titled_spacesOnly s Hs) as [Hsp Hrm].
  unfold toTitleCase, trim.
  rewrite removeChar_trimEnd by (apply spacesOnly_trimStart, Hsp).
  rewrite removeChar_trimStart by exact Hsp. exact Hrm.
Qed.

Lemma toTitleCase_only_adds_spaces_witness :
  allChars (fun c => negb (isWhiteSpace c)) "base64ToPNG_v2" = true
  /\ removeChar space (toTitleCase "base64ToPNG_v2") = "base64ToPNG_v2".
Proof.
  split; [reflexivity|].
  apply (toTitleCase_only_adds_spaces "base64ToPNG_v2"). reflexivity.
Defined.

(** ** The pages directory after a run *)

Lemma writes_dom fs (dir : gmap string string) :
  dom (fold_left writePage fs dir)
  = dom dir ∪ list_to_set (map destination fs).
Proof.
  revert dir. induction fs as [|f fs IH]; intros dir.
  - simpl. set_solver.
  - cbn [fold_left map]. rewrite IH. unfold writePage at 1.
    rewrite dom_insert_L, list_to_set_cons. set_solver.
Qed.

Lemma writes_size fs (dir : gmap string string) :
  size (fold_left writePage fs dir) <= size dir + length fs.
Proof.
  revert dir. induction fs as [|f fs IH]; intros dir; simpl; [lia|].
  specialize (IH (writePage dir f)).
  assert (Hstep : size (writePage dir f) <= S (size dir)).
  { unfold writePage. rewrite map_size_insert.
    destruct (dir !! destination f); simpl; lia. }
  lia.
Qed.

Lemma size_list_to_set_le (l : list string) :
  size (list_to_set l : gset string) <= length l.
Proof.
  induction l as [|x l IH]; [rewrite list_to_set_nil, size_empty; simpl; lia|].
  rewrite list_to_set_cons, size_union_alt, size_singleton.
  assert (size ((list_to_set l : gset string) ∖ {[x]}) <= size (list_to_set l : gset string))
    by (apply subseteq_size; set_solver).
  simpl. lia.
Qed.

Lemma size_list_to_set_NoDup (l : list string) :
  size (list_to_set l : gset string) = length l -> NoDup l.
Proof.
  induction l as [|x l IH]; [constructor|]. intros Hsize.
  pose proof (size_list_to_set_le l) as Hle.
  rewrite list_to_set_cons in Hsize. simpl in Hsize.
  destruct (decide (x ∈ l)) as [Hin|Hnotin].
  - assert (Hset : x ∈ (list_to_set l : gset string))
      by (apply elem_of_list_to_set; exact Hin).
    assert (Heq : {[x]} ∪ (list_to_set l : gset string) = list_to_set l)
      by set_solver.
    rewrite Heq in Hsize. lia.
  - rewrite size_union in Hsize by set_solver.
    rewrite size_singleton in Hsize.
    constructor; [exact Hnotin|].
    apply IH. lia.
Qed.

(** X4.  A run never deletes or touches a page that no file of the listing
    is written to: a path that is the destination of none of the [.tsx]
    files holds after the run what it held before (stale pages of removed
    tools stay). *)
Theorem stale_pages_stay
    (listing : list string) (dir : gmap string string) (path : string) :
  (forall f, In f listing -> endsWith f ".tsx" = true -> destination f <> path) ->
  generate listing dir !! path = dir !! path.
Proof.
  intros H. apply generate_elsewhere. intros f Hf.
  apply filter_In in Hf as [Hin Hends]. exact (H f Hin Hends).
Qed.

Lemma stale_pages_stay_witness :
  generate ["EinopsViz.tsx"; "notes.md"] {["old-tool.astro" := "stale"]}
    !! "old-tool.astro"
  = ({["old-tool.astro" := "stale"]} : gmap string string) !! "old-tool.astro".
Proof.
  apply (stale_pages_stay ["EinopsViz.tsx"; "notes.md"]).
  intros f [<-|[<-|[]]] Hends; [discriminate | discriminate Hends].
Defined.

Lemma all_fit_written listing :
  (forall f, In f (files listing) -> nameFits (destination f) = true) ->
  written (files listing) = files listing.
Proof. intros H. apply written_all, refused_none, H. Qed.

Lemma refused_some fs path : refused fs = Some path -> nameFits path = false.
Proof.
  induction fs as [|f fs IH]; simpl; [discriminate|].
  destruct (nameFits (destination f)) eqn:E; [exact IH|].
  intros [= <-]. exact E.
Qed.

(** X5.  After a run the pages directory holds exactly the files it held
    before together with the destinations of the [.tsx] files whose page
    was written: those listed before the first page file name that is
    refused, and so all of them when every page file name is within the
    limit. *)
Theorem pages_after_run (listing : list string) (dir : gmap string string) :
  dom (generate listing dir)
  = dom dir ∪ list_to_set (map destination (written (files listing)))
  /\ ((forall f, In f (files listing) -> nameFits (destination f) = true) ->
      dom (generate listing dir)
      = dom dir ∪ list_to_set (map destination (files listing))).
Proof.
  rewrite generate_writes, writes_dom. split; [reflexivity|].
  intros Hfit. rewrite (all_fit_written _ Hfit). reflexivity.
Qed.

Lemma pages_after_run_witness :
  files ["EinopsViz.tsx"; "notes.md"; "SgTaxCalculator.tsx"]
  = ["EinopsViz.tsx"; "SgTaxCalculator.tsx"]
  /\ dom (generate ["EinopsViz.tsx"; "notes.md"; "SgTaxCalculator.tsx"] ∅)
     = dom (∅ : gmap string string)
       ∪ list_to_set
           (map destination
              (files ["EinopsViz.tsx"; "notes.md"; "SgTaxCalculator.tsx"])).
Proof.
  split; [reflexivity|].
  apply (proj2 (pages_after_run
                  ["EinopsViz.tsx"; "notes.md"; "SgTaxCalculator.tsx"] ∅)).
  intros f [<-|[<-|[]]]; reflexivity.
Defined.

(** X6.  The run completes normally exactly when every page file name of
    the listing is within the limit.  It then ends with the notice that
    counts the [.tsx] files of the listing; the number of pages it leaves in
    an empty directory is at most that count, and equal to it exactly when
    no two files share a destination.  Otherwise it ends with the throw of
    the refused write, and the final notice is never printed. *)
Theorem announced_count (listing : list string) :
  let n := length (files listing) in
  let run := generatePages listing (World ∅ []) in
  (fst run = Normal tt
   <-> forall f, In f (files listing) -> nameFits (destination f) = true)
  /\ (fst run = Normal tt ->
      last (console (snd run)) = Some (GeneratedPages n)
      /\ size (pages (snd run)) <= n
      /\ (size (pages (snd run)) = n
          <-> NoDup (map destination (files listing))))
  /\ (fst run <> Normal tt ->
      (exists path, fst run = Throw (ENAMETOOLONG path)
                    /\ nameFits path = false)
      /\ forall k, ~ In (GeneratedPages k) (console (snd run))).
Proof.
  cbv zeta. rewrite run_script. cbn [fst snd pages console].
  rewrite <- refused_none.
  destruct (refused (files listing)) as [path|] eqn:E.
  - split; [split; discriminate|]. split; [discriminate|]. intros _.
    split; [exists path; split; [reflexivity | exact (refused_some _ _ E)]|].
    intros k Hk. rewrite app_nil_r in Hk.
    apply in_map_iff in Hk as (f & Hf & _). discriminate Hf.
  - split; [split; reflexivity|]. split; [|intros H; destruct (H eq_refl)].
    intros _. rewrite (written_all _ E). split; [apply last_snoc|]. split.
    + pose proof (writes_size (files listing) ∅) as H.
      rewrite map_size_empty in H. exact H.
    + rewrite <- (size_dom (D:=gset string)), writes_dom.
      rewrite dom_empty_L, (left_id_L ∅ (∪)).
      split.
      * intros H. apply size_list_to_set_NoDup. rewrite length_map. exact H.
      * intros H. rewrite size_list_to_set by exact H. apply length_map.
Qed.

Lemma announced_count_witness :
  fst (generatePages ["Ab.tsx"; "xab.tsx"] (World ∅ [])) = Normal tt
  /\ last (console (snd (generatePages ["Ab.tsx"; "xab.tsx"] (World ∅ []))))
     = Some (GeneratedPages 2)
  /\ size (pages (snd (generatePages ["Ab.tsx"; "xab.tsx"] (World ∅ [])))) <= 2.
Proof.
  destruct (announced_count ["Ab.tsx"; "xab.tsx"]) as (H1 & H2 & _).
  assert (Hok : fst (generatePages ["Ab.tsx"; "xab.tsx"] (World ∅ [])) = Normal tt)
    by (apply H1; intros f [<-|[<-|[]]]; reflexivity).
  split; [exact Hok|]. destruct (H2 Hok) as (H3 & H4 & _).
  split; [exact H3 | exact H4].
Defined.

(** ** Order of the listing *)

Lemma files_Permutation l k : Permutation l k -> Permutation (files l) (files k).
Proof.
  unfold files. induction 1 as [|x l k _ IH|x y l|l k m _ IH1 _ IH2]; simpl.
  - constructor.
  - destruct (endsWith x ".tsx"); [constructor|]; exact IH.
  - destruct (endsWith x ".tsx"), (endsWith y ".tsx");
      try reflexivity; apply perm_swap.
  - etransitivity; eassumption.
Qed.

Lemma writes_Permutation fs fs' :
  Permutation fs fs' -> NoDup (map destination fs) ->
  forall dir : gmap string string,
    fold_left writePage fs dir = fold_left writePage fs' dir.
Proof.
  induction 1 as [|x l k Hp IH|x y l|l k m Hp1 IH1 Hp2 IH2]; intros Hnd dir.
  - reflexivity.
  - simpl. apply IH. simpl in Hnd. apply NoDup_cons in Hnd as [_ Hnd]. exact Hnd.
  - simpl in *. f_equal. unfold writePage.
    apply NoDup_cons in Hnd as [Hy _].
    apply insert_insert_ne. intros Heq. apply Hy. rewrite Heq. left.
  - rewrite (IH1 Hnd). apply IH2.
    apply (NoDup_Permutation_proper _ _ (Permutation_map destination Hp1)), Hnd.
Qed.

(** X7.  When every page file name of the listing is within the limit and
    no two [.tsx] files of the listing share a destination, the order in
    which the directory is listed does not matter: a run on any
    rearrangement of the listing leaves the same pages directory. *)
Theorem listing_order_irrelevant
    (listing listing' : list string) (dir : gmap string string) :
  Permutation listing listing' ->
  (forall f, In f (files listing) -> nameFits (destination f) = true) ->
  NoDup (map destination (files listing)) ->
  generate listing dir = generate listing' dir.
Proof.
  intros Hp Hfit Hnd. rewrite !generate_writes.
  pose proof (files_Permutation _ _ Hp) as Hfp.
  rewrite (all_fit_written _ Hfit), (all_fit_written listing').
  - apply writes_Permutation; [exact Hfp | exact Hnd].
  - intros f Hf. apply Hfit.
    exact (Permutation_in f (Permutation_sym Hfp) Hf).
Qed.

Lemma listing_order_irrelevant_witness :
  generate ["EinopsViz.tsx"; "SgTaxCalculator.tsx"] ∅
  = generate ["SgTaxCalculator.tsx"; "EinopsViz.tsx"] ∅.
Proof.
  apply listing_order_irrelevant; [apply perm_swap| |].
  - intros f [<-|[<-|[]]]; reflexivity.
  - apply NoDup_cons. split; [|apply NoDup_singleton].
    intros H. apply list_elem_of_singleton in H. discriminate H.
Defined.

(** ** Well-named tool files *)

Lemma file_parts stem :
  allChars (fun c => negb (isChar dot c)) stem = true ->
  endsWith (stem +:+ ".tsx") ".tsx" = true
  /\ componentName (stem +:+ ".tsx") = stem
  /\ destination (stem +:+ ".tsx") = toKebabCase stem +:+ ".astro".
Proof.
  intros H. unfold destination.
  rewrite endsWith_app, (componentName_plain _ H). repeat split.
Qed.

(** X8.  For a file named [stem.tsx] whose stem holds no dot, the file is
    kept by the filter, the component name is the stem (the name with its
    suffix stripped), the page goes to the slug of the stem followed by
    [.astro], and its content is the template filled with the stem. *)
Theorem file_of_stem (stem : string) :
  allChars (fun c => negb (isChar dot c)) stem = true ->
  let file := stem +:+ ".tsx" in
  endsWith file ".tsx" = true
  /\ componentName file = stem
  /\ stripSuffix ".tsx" file = stem
  /\ destination file = toKebabCase stem +:+ ".astro"
  /\ artifact file = pageContent stem.
Proof.
  intros H file. unfold file, destination, artifact.
  rewrite endsWith_app, stripSuffix_app, (componentName_plain _ H).
  repeat split.
Qed.

Lemma file_of_stem_witness :
  allChars (fun c => negb (isChar dot c)) "CircleImageCropper" = true
  /\ componentName "CircleImageCropper.tsx" = "CircleImageCropper"
  /\ destination "CircleImageCropper.tsx" = "circle-image-cropper.astro".
Proof.
  split; [reflexivity|].
  destruct (file_of_stem "CircleImageCropper" eq_refl) as (_ & H2 & _ & H4 & _).
  split; [exact H2 | exact H4].
Defined.

Lemma alnum_not_dot c : isAlnum c = true -> negb (isChar dot c) = true.
Proof. each_ascii c. Qed.

Lemma componentName_no_dot s :
  isComponentName s = true -> allChars (fun c => negb (isChar dot c)) s = true.
Proof.
  intros H. eapply allChars_impl; [|apply componentName_alnum, H].
  apply alnum_not_dot.
Qed.

Lemma app_inv_tail' a b t : a +:+ t = b +:+ t -> a = b.
Proof.
  intros H. apply (app_inj_length a b t t); [|exact H].
  apply (f_equal String.length) in H. rewrite !length_app in H. lia.
Qed.

(** X9.  In a tools directory where every file ending in [.tsx] is named
    after a component name (letters and digits, the first a letter in
    [A-Z]) and gets a page file name within the limit, every tool gets its
    own page: after the run the file named by the slug of the component
    holds the template filled with that component, whatever else the
    listing holds and in whatever order. *)
Theorem every_tool_gets_its_page
    (listing : list string) (dir : gmap string string) (W : string) :
  (forall f, In f listing -> endsWith f ".tsx" = true ->
     exists V, f = V +:+ ".tsx" /\ isComponentName V = true) ->
  (forall f, In f listing -> endsWith f ".tsx" = true ->
     nameFits (destination f) = true) ->
  isComponentName W = true ->
  In (W +:+ ".tsx") listing ->
  generate listing dir !! (toKebabCase W +:+ ".astro") = Some (pageContent W).
Proof.
  intros Hnamed Hfit HW Hin.
  destruct (file_parts W (componentName_no_dot _ HW)) as (Hends & Hcn & Hdest).
  assert (Hfile : In (W +:+ ".tsx") (files listing))
    by (apply filter_In; split; [exact Hin | exact Hends]).
  rewrite generate_writes, all_fit_written
    by (intros f [Hf He]%filter_In; exact (Hfit f Hf He)).
  destruct (writes_written (files listing) dir (toKebabCase W +:+ ".astro"))
    as (f & Hf & Hfd & Hlook); [exists (W +:+ ".tsx"); split; assumption|].
  rewrite Hlook. f_equal.
  apply filter_In in Hf as [Hfin Hfends].
  destruct (Hnamed f Hfin Hfends) as (V & -> & HV).
  destruct (file_parts V (componentName_no_dot _ HV)) as (_ & HcnV & HdestV).
  unfold artifact. rewrite HcnV. f_equal.
  apply (componentName_slug_inj V W HV HW).
  apply (app_inv_tail' _ _ ".astro"). rewrite <- HdestV. exact Hfd.
Qed.

Lemma every_tool_gets_its_page_witness :
  generate ["SgTaxCalculator.tsx"; "README.md"; "EinopsViz.tsx"] ∅
    !! "einops-viz.astro"
  = Some (pageContent "EinopsViz").
Proof.
  apply (every_tool_gets_its_page
           ["SgTaxCalculator.tsx"; "README.md"; "EinopsViz.tsx"] ∅ "EinopsViz").
  - intros f [<-|[<-|[<-|[]]]] Hends.
    + exists "SgTaxCalculator". split; reflexivity.
    + discriminate Hends.
    + exists "EinopsViz". split; reflexivity.
  - intros f [<-|[<-|[<-|[]]]] Hends; reflexivity.
  - reflexivity.
  - right. right. left. reflexivity.
Defined.

(** ** Comparison of numbers *)

Lemma SFcompare_antisym a b :
  SFcompare b a = option_map CompOpp (SFcompare a b).
Proof.
  destruct a as [s|s| |s m e], b as [s'|s'| |s' m' e']; simpl;
    try destruct s; try destruct s'; try reflexivity.
  - rewrite (Z.compare_antisym e e'). destruct (e ?= e')%Z; simpl; try reflexivity.
    change (PosDef.Pos.compare_cont Eq m' m) with (Pos.compare m' m).
    change (PosDef.Pos.compare_cont Eq m m') with (Pos.compare m m').
    rewrite (Pos.compare_antisym m m'). reflexivity.
  - rewrite (Z.compare_antisym e e'). destruct (e ?= e')%Z; simpl; try reflexivity.
    change (PosDef.Pos.compare_cont Eq m' m) with (Pos.compare m' m).
    change (PosDef.Pos.compare_cont Eq m m') with (Pos.compare m m').
    rewrite (Pos.compare_antisym m m'). reflexivity.
Qed.

Lemma not_nan_spec x : is_nan x = false -> Prim2SF x <> S754_nan.
Proof.
  unfold is_nan. rewrite FloatAxioms.eqb_spec. intros H E. rewrite E in H. discriminate.
Qed.

Lemma SFcompare_some a b :
  a <> S754_nan -> b <> S754_nan -> exists c, SFcompare a b = Some c.
Proof.
  destruct a, b; simpl; try congruence; eauto.
Qed.

Lemma ltb_false_leb a b :
  is_nan a = false -> is_nan b = false ->
  PrimFloat.ltb a b = false -> PrimFloat.leb b a = true.
Proof.
  intros Ha%not_nan_spec Hb%not_nan_spec.
  rewrite FloatAxioms.ltb_spec, FloatAxioms.leb_spec. unfold SFltb, SFleb.
  rewrite (SFcompare_antisym (Prim2SF a) (Prim2SF b)).
  destruct (SFcompare_some _ _ Ha Hb) as [c ->]. destruct c; simpl; congruence.
Qed.

Lemma leb_false_ltb a b :
  is_nan a = false -> is_nan b = false ->
  PrimFloat.leb a b = false -> PrimFloat.ltb b a = true.
Proof.
  intros Ha%not_nan_spec Hb%not_nan_spec.
  rewrite FloatAxioms.ltb_spec, FloatAxioms.leb_spec. unfold SFltb, SFleb.
  rewrite (SFcompare_antisym (Prim2SF a) (Prim2SF b)).
  destruct (SFcompare_some _ _ Ha Hb) as [c ->]. destruct c; simpl; congruence.
Qed.

Lemma threshold_not_nan i : is_nan (threshold (row i)) = false.
Proof.
  do 13 (destruct i as [|i]; [reflexivity|]). destruct i; reflexivity.
Qed.

Lemma searchDown_spec income i :
  searchDown income i <= i
  /\ (forall j, searchDown income i < j <= i ->
                PrimFloat.ltb (threshold (row j)) income = false)
  /\ (PrimFloat.ltb (threshold (row (searchDown income i))) income = true
      \/ searchDown income i = 0).
Proof.
  induction i as [|i (IHle & IHabove & IHat)].
  - simpl. destruct (PrimFloat.ltb _ income); repeat split; auto; intros j Hj; lia.
  - cbn [searchDown]. destruct (PrimFloat.ltb (threshold (row (S i))) income) eqn:E.
    + split; [lia|]. split; [intros j Hj; lia | left; exact E].
    + split; [lia|]. split; [|exact IHat].
      intros j Hj. destruct (Nat.eq_dec j (S i)) as [->|Hne]; [exact E|].
      apply IHabove. lia.
Qed.

Ltac cmp_cases :=
  repeat (match goal with
          | H : context [(?x ?= ?y)%Z] |- _ =>
              destruct (Z.compare_spec x y); simpl in H
          | |- context [(?x ?= ?y)%Z] =>
              destruct (Z.compare_spec x y); simpl
          | H : context [PosDef.Pos.compare_cont Eq ?x ?y] |- _ =>
              change (PosDef.Pos.compare_cont Eq x y) with (Pos.compare x y) in H;
              destruct (Pos.compare_spec x y); simpl in H
          | |- context [PosDef.Pos.compare_cont Eq ?x ?y] =>
              change (PosDef.Pos.compare_cont Eq x y) with (Pos.compare x y);
              destruct (Pos.compare_spec x y); simpl
          end; subst; try discriminate; try lia);
  try reflexivity; try discriminate; try lia.

Lemma SFcompare_lt_le a b c :
  SFcompare a b = Some Lt ->
  SFcompare b c = Some Lt \/ SFcompare b c = Some Eq ->
  SFcompare a c = Some Lt.
Proof.
  destruct a as [s|s| |s m e], b as [s'|s'| |s' m' e'], c as [s''|s''| |s'' m'' e''];
    simpl; try destruct s; try destruct s'; try destruct s'';
    intros H1 [H2|H2]; try discriminate; try reflexivity; cmp_cases.
Qed.

Lemma SFcompare_le_le a b c :
  SFcompare a b = Some Lt \/ SFcompare a b = Some Eq ->
  SFcompare b c = Some Lt \/ SFcompare b c = Some Eq ->
  SFcompare a c = Some Lt \/ SFcompare a c = Some Eq.
Proof.
  destruct a as [s|s| |s m e], b as [s'|s'| |s' m' e'], c as [s''|s''| |s'' m'' e''];
    simpl; try destruct s; try destruct s'; try destruct s'';
    intros [H1|H1] [H2|H2]; try discriminate; auto; cmp_cases; auto.
Qed.

Lemma ltb_leb_trans a b c :
  PrimFloat.ltb a b = true -> PrimFloat.leb b c = true -> PrimFloat.ltb a c = true.
Proof.
  rewrite !FloatAxioms.ltb_spec, FloatAxioms.leb_spec. unfold SFltb, SFleb.
  intros H1 H2.
  rewrite (SFcompare_lt_le (Prim2SF a) (Prim2SF b) (Prim2SF c)); [reflexivity | |].
  - destruct (SFcompare (Prim2SF a) (Prim2SF b)) as [[]|]; congruence.
  - destruct (SFcompare (Prim2SF b) (Prim2SF c)) as [[]|]; auto; discriminate.
Qed.

Lemma leb_trans a b c :
  PrimFloat.leb a b = true -> PrimFloat.leb b c = true -> PrimFloat.leb a c = true.
Proof.
  rewrite !FloatAxioms.leb_spec. unfold SFleb. intros H1 H2.
  destruct (SFcompare_le_le (Prim2SF a) (Prim2SF b) (Prim2SF c)) as [->| ->];
    try reflexivity.
  - destruct (SFcompare (Prim2SF a) (Prim2SF b)) as [[]|]; auto; discriminate.
  - destruct (SFcompare (Prim2SF b) (Prim2SF c)) as [[]|]; auto; discriminate.
Qed.

(** ** The tax bracket *)

(** X10.  For an income that is a number above 20000, the bracket returned
    is one of the rows 1 to 12 of the table, its threshold lies strictly
    below the income, and the income does not exceed the threshold of the
    next row when there is one: an income equal to a threshold belongs to
    the bracket below.  The rate returned is the rate of that row and the
    tax is the cumulative amount of the row plus the excess over its
    threshold times its rate, computed in binary64. *)
Theorem bracket_holds_income (income : float) :
  is_nan income = false ->
  PrimFloat.leb income 20000 = false ->
  let r := calculateTax income in
  1 <= bracket r <= 12
  /\ PrimFloat.ltb (threshold (row (bracket r))) income = true
  /\ (bracket r < 12 ->
      PrimFloat.leb income (threshold (row (S (bracket r)))) = true)
  /\ resultRate r = rate (row (bracket r))
  /\ tax r = PrimFloat.add (cumulative (row (bracket r)))
               (PrimFloat.mul (PrimFloat.sub income (threshold (row (bracket r))))
                              (rate (row (bracket r)))).
Proof.
  intros Hnan Hle r. unfold r, calculateTax. rewrite Hle.
  cbn [bracket resultRate tax].
  change (length taxBrackets - 1) with 12.
  destruct (searchDown_spec income 12) as (Hb & Habove & Hat).
  set (b := searchDown income 12) in *.
  assert (Hlt : PrimFloat.ltb 20000 income = true)
    by (apply leb_false_ltb; [exact Hnan | reflexivity | exact Hle]).
  assert (Hpos : 1 <= b).
  { destruct (Nat.eq_dec b 0) as [H0|]; [|lia].
    assert (PrimFloat.ltb (threshold (row 1)) income = false)
      by (apply Habove; lia).
    change (threshold (row 1)) with 20000%float in H. congruence. }
  split; [lia|]. split; [destruct Hat as [H|H]; [exact H | lia]|].
  split; [|split; reflexivity].
  intros Hb12. apply ltb_false_leb; [apply threshold_not_nan | exact Hnan|].
  apply Habove. lia.
Qed.

Lemma bracket_holds_income_witness :
  is_nan 30000%float = false
  /\ PrimFloat.leb 30000 20000 = false
  /\ bracket (calculateTax 30000) = 1
  /\ PrimFloat.ltb (threshold (row 1)) 30000 = true
  /\ PrimFloat.leb 30000 (threshold (row 2)) = true.
Proof.
  split; [reflexivity|]. split; [reflexivity|]. split; [reflexivity|].
  destruct (bracket_holds_income 30000%float eq_refl eq_refl) as (_ & H2 & H3 & _).
  split; [exact H2 | apply H3; vm_compute; lia].
Defined.

(** X11.  A larger income never lands in a lower bracket: when [a <= b]
    holds for two incomes, the bracket of [a] is at most the bracket of
    [b]. *)
Theorem bracket_monotone (a b : float) :
  PrimFloat.leb a b = true ->
  bracket (calculateTax a) <= bracket (calculateTax b).
Proof.
  intros Hab. unfold calculateTax.
  destruct (PrimFloat.leb a 20000) eqn:Ha; [simpl; lia|].
  destruct (PrimFloat.leb b 20000) eqn:Hb;
    [rewrite (leb_trans a b 20000 Hab Hb) in Ha; discriminate|].
  cbn [bracket]. change (length taxBrackets - 1) with 12.
  destruct (searchDown_spec a 12) as (_ & _ & [Hat|H0]); [|lia].
  destruct (searchDown_spec b 12) as (_ & Habove & _).
  destruct (le_lt_dec (searchDown a 12) (searchDown b 12)) as [Hle|Hlt]; [exact Hle|].
  pose proof (ltb_leb_trans _ _ _ Hat Hab) as Hb'.
  rewrite Habove in Hb'; [discriminate|].
  split; [exact Hlt | apply (proj1 (searchDown_spec a 12))].
Qed.

Lemma bracket_monotone_witness :
  PrimFloat.leb 45000.5 250000 = true
  /\ bracket (calculateTax 45000.5) <= bracket (calculateTax 250000).
Proof.
  split; [reflexivity|]. apply bracket_monotone. reflexivity.
Defined.

Lemma SFcompare_refl_not_lt a : SFcompare a a <> Some Lt.
Proof.
  destruct a as [s|s| |s m e]; simpl; try destruct s; try discriminate;
    rewrite Z.compare_refl;
    change (PosDef.Pos.compare_cont Eq m m) with (Pos.compare m m);
    rewrite Pos.compare_refl; discriminate.
Qed.

Lemma ltb_irrefl a : PrimFloat.ltb a a = false.
Proof.
  rewrite FloatAxioms.ltb_spec. unfold SFltb.
  pose proof (SFcompare_refl_not_lt (Prim2SF a)) as H.
  destruct (SFcompare (Prim2SF a) (Prim2SF a)) as [[]|]; congruence.
Qed.

Lemma thresholds_sorted j k :
  j <= k -> k <= 12 ->
  PrimFloat.leb (threshold (row j)) (threshold (row k)) = true.
Proof.
  intros Hjk Hk.
  do 13 (destruct k as [|k];
         [do 13 (destruct j as [|j]; [first [lia | reflexivity]|]); lia|]).
  lia.
Qed.

Lemma searchDown_first income i n :
  i <= n ->
  PrimFloat.ltb (threshold (row i)) income = true ->
  (forall j, i < j <= n -> PrimFloat.ltb (threshold (row j)) income = false) ->
  searchDown income n = i.
Proof.
  intros Hin Hi Habove. induction n as [|n IH].
  - assert (i = 0) as -> by lia. cbn [searchDown]. rewrite Hi. reflexivity.
  - cbn [searchDown]. destruct (Nat.eq_dec i (S n)) as [->|Hne].
    + rewrite Hi. reflexivity.
    + rewrite Habove by lia. apply IH; [lia|].
      intros j Hj. apply Habove. lia.
Qed.

(** X12.  An income strictly above the threshold of row [i] (one of the
    rows 1 to 12) and not above the threshold of the next row, when there is
    one, is put in bracket [i] and gets the rate of row [i]. *)
Theorem income_in_bracket (income : float) (i : nat) :
  1 <= i <= 12 ->
  PrimFloat.ltb (threshold (row i)) income = true ->
  (i < 12 -> PrimFloat.leb income (threshold (row (S i))) = true) ->
  bracket (calculateTax income) = i
  /\ resultRate (calculateTax income) = rate (row i).
Proof.
  intros Hi Hlow Hhigh.
  assert (Hexempt : PrimFloat.leb income 20000 = false).
  { destruct (PrimFloat.leb income 20000) eqn:E; [|reflexivity].
    pose proof (ltb_leb_trans _ _ _ Hlow E) as H1.
    pose proof (ltb_leb_trans _ _ _ H1 (thresholds_sorted 1 i (proj1 Hi) (proj2 Hi)))
      as H2.
    rewrite ltb_irrefl in H2. discriminate. }
  assert (Hb : searchDown income 12 = i).
  { apply searchDown_first; [lia | exact Hlow|].
    intros j Hj. destruct (PrimFloat.ltb (threshold (row j)) income) eqn:E;
      [|reflexivity].
    pose proof (ltb_leb_trans _ _ _ E (Hhigh ltac:(lia))) as H1.
    pose proof (ltb_leb_trans _ _ _ H1 (thresholds_sorted (S i) j ltac:(lia) ltac:(lia)))
      as H2.
    rewrite ltb_irrefl in H2. discriminate. }
  unfold calculateTax. rewrite Hexempt. cbn [bracket resultRate].
  change (length taxBrackets - 1) with 12. rewrite Hb. split; reflexivity.
Qed.

Lemma income_in_bracket_witness :
  PrimFloat.ltb (threshold (row 4)) 120000 = true
  /\ PrimFloat.leb 120000 (threshold (row 5)) = true
  /\ bracket (calculateTax 120000) = 4
  /\ resultRate (calculateTax 120000) = 0.115%float.
Proof.
  split; [reflexivity|]. split; [reflexivity|].
  apply (income_in_bracket 120000%float 4);
    [lia | reflexivity | intros _; reflexivity].
Defined.

(** ** Titles of arbitrary input *)

Lemma firstChar_trimStart s c :
  firstChar (trimStart s) = Some c -> isWhiteSpace c = false.
Proof.
  induction s as [|d r IH]; [discriminate|]. cbn [trimStart].
  destruct (isWhiteSpace d) eqn:E; [exact IH|].
  intros [= <-]. exact E.
Qed.

Lemma firstChar_trimEnd s c :
  firstChar (trimEnd s) = Some c -> firstChar s = Some c.
Proof.
  destruct s as [|d r]; [discriminate|]. cbn [trimEnd].
  destruct (isWhiteSpace d && isEmpty (trimEnd r)); [discriminate|].
  intros H. exact H.
Qed.

Lemma lastChar_trimEnd s c :
  lastChar (trimEnd s) = Some c -> isWhiteSpace c = false.
Proof.
  induction s as [|d r IH]; [discriminate|]. cbn [trimEnd].
  destruct (trimEnd r) as [|e r'] eqn:E.
  - cbn [isEmpty]. rewrite andb_true_r.
    destruct (isWhiteSpace d) eqn:Hd; [discriminate|].
    intros [= <-]. exact Hd.
  - cbn [isEmpty]. rewrite andb_false_r.
    rewrite lastChar_cons by discriminate. exact IH.
Qed.

(** X13.  Whatever the input, the title neither starts nor ends with white
    space. *)
Theorem toTitleCase_trimmed (s : string) :
  (forall c, firstChar (toTitleCase s) = Some c -> isWhiteSpace c = false)
  /\ (forall c, lastChar (toTitleCase s) = Some c -> isWhiteSpace c = false).
Proof.
  unfold toTitleCase, trim. split; intros c Hc.
  - apply firstChar_trimEnd in Hc. exact (firstChar_trimStart _ _ Hc).
  - exact (lastChar_trimEnd _ _ Hc).
Qed.

Lemma toTitleCase_trimmed_witness :
  firstChar (toTitleCase " fooBar ") = Some "f"%char
  /\ isWhiteSpace "f" = false /\ isWhiteSpace "r" = false.
Proof.
  split; [reflexivity|].
  destruct (toTitleCase_trimmed " fooBar ") as [H1 H2].
  split; [apply H1 | apply H2]; reflexivity.
Defined.

(** ** The filter on the listing *)

Lemma substring_split s k :
  k <= String.length s ->
  s = String.substring 0 k s +:+ String.substring k (String.length s - k) s.
Proof.
  revert k. induction s as [|c r IH]; intros [|k] Hk; simpl in *; try lia.
  - reflexivity.
  - rewrite app_empty_l. f_equal.
    clear. induction r as [|d r IH]; [reflexivity|]. simpl. f_equal. exact IH.
  - rewrite app_cons. f_equal. apply IH. lia.
Qed.

Lemma endsWith_iff s suffix :
  endsWith s suffix = true <-> exists p, s = p +:+ suffix.
Proof.
  split.
  - unfold endsWith. intros [Hlen Heq]%andb_prop.
    apply Nat.leb_le in Hlen. apply String.eqb_eq in Heq.
    exists (String.substring 0 (String.length s - String.length suffix) s).
    pose proof (substring_split s (String.length s - String.length suffix)
                  ltac:(lia)) as Hsplit.
    replace (String.length s - (String.length s - String.length suffix))
      with (String.length suffix) in Hsplit by lia.
    rewrite Heq in Hsplit. exact Hsplit.
  - intros [p ->]. apply endsWith_app.
Qed.

(** X14.  The files a run works on are exactly the names of the listing of
    the form [p.tsx], as often and in the order the listing has them; a
    name without that ending is never processed, whatever its case. *)
Theorem files_are_the_tsx_names (listing : list string) :
  (forall f, In f (files listing) <-> In f listing /\ exists p, f = p +:+ ".tsx")
  /\ (forall l k, listing = l ++ k -> files listing = files l ++ files k)
  /\ (forall p l, files ((p +:+ ".tsx") :: l) = (p +:+ ".tsx") :: files l)
  /\ files ["Tool.TSX"; "Tool.tsx.bak"; "tsx"; ".tsx"] = [".tsx"].
Proof.
  split; [|split; [|split; [|reflexivity]]].
  - intros f. unfold files. rewrite filter_In, endsWith_iff. reflexivity.
  - intros l k ->. apply files_app.
  - intros p l. apply files_cons_tsx, endsWith_app.
Qed.

Lemma files_are_the_tsx_names_witness :
  In "EinopsViz.tsx" (files ["notes.md"; "EinopsViz.tsx"]).
Proof.
  apply (proj1 (files_are_the_tsx_names ["notes.md"; "EinopsViz.tsx"])).
  split; [right; left; reflexivity | exists "EinopsViz"; reflexivity].
Defined.

Lemma written_app fs gs :
  written (fs ++ gs)
  = match refused fs with
    | None => fs ++ written gs
    | Some _ => written fs
    end.
Proof.
  induction fs as [|f fs IH]; simpl; [reflexivity|].
  destruct (nameFits (destination f)); [|reflexivity].
  rewrite IH. destruct (refused fs); reflexivity.
Qed.

(** X15.  A run over a listing in two parts: when the run over the first
    part completes normally, the whole run leaves what a run over the second
    part leaves on the directory the first one left; when the run over the
    first part ends with a throw, the whole run ends there and leaves what
    the first part left, the second part being never reached. *)
Theorem generate_in_two_parts
    (listing1 listing2 : list string) (dir : gmap string string) :
  (fst (generatePages listing1 (World dir [])) = Normal tt ->
   generate (listing1 ++ listing2) dir = generate listing2 (generate listing1 dir))
  /\ (fst (generatePages listing1 (World dir [])) <> Normal tt ->
      generate (listing1 ++ listing2) dir = generate listing1 dir
      /\ fst (generatePages (listing1 ++ listing2) (World dir []))
         = fst (generatePages listing1 (World dir []))).
Proof.
  rewrite !generate_writes, !run_script, files_app, written_app.
  cbn [fst]. destruct (refused (files listing1)) as [path|] eqn:E.
  - split; [discriminate|]. intros _. split; [reflexivity|].
    assert (Hr : refused (files listing1 ++ files listing2) = Some path).
    { clear -E. induction (files listing1) as [|f fs IH]; simpl in *;
        [discriminate|].
      destruct (nameFits (destination f)); [exact (IH E) | exact E]. }
    rewrite Hr. reflexivity.
  - split; [|intros H; destruct (H eq_refl)]. intros _.
    rewrite (written_all _ E). apply fold_left_app.
Qed.

Lemma generate_in_two_parts_witness :
  generate (["Ab.tsx"] ++ ["EinopsViz.tsx"]) ∅
  = generate ["EinopsViz.tsx"] (generate ["Ab.tsx"] ∅).
Proof.
  apply (proj1 (generate_in_two_parts ["Ab.tsx"] ["EinopsViz.tsx"] ∅)).
  reflexivity.
Defined.

(** ** File names with an inner [.tsx] *)

(** X16.  The component name is the file name with its first [.tsx]
    removed, wherever it stands: for a file name made of a part without a
    dot, then [.tsx], then anything, the component name is the first part
    followed by the rest.  Only when nothing follows is this the name with
    its suffix stripped. *)
Theorem componentName_removes_first_tsx (before after : string) :
  allChars (fun c => negb (isChar dot c)) before = true ->
  componentName (before +:+ ".tsx" +:+ after) = before +:+ after.
Proof.
  unfold componentName.
  induction before as [|c r IH]; [intros _; destruct after; reflexivity|].
  cbn [allChars]. intros [Hc Hr]%andb_prop.
  rewrite (app_cons c r (".tsx" +:+ after)), (app_cons c r after).
  change (replaceFirst ".tsx" "" (String c (r +:+ ".tsx" +:+ after)))
    with (if String.prefix ".tsx" (String c (r +:+ ".tsx" +:+ after))
          then "" +:+ slice 4 (String c (r +:+ ".tsx" +:+ after))
          else String c (replaceFirst ".tsx" "" (r +:+ ".tsx" +:+ after))).
  assert (Hpre : String.prefix ".tsx" (String c (r +:+ ".tsx" +:+ after)) = false).
  { change (String.prefix ".tsx" (String c (r +:+ ".tsx" +:+ after)))
      with (if ascii_dec "." c
            then String.prefix "tsx" (r +:+ ".tsx" +:+ after) else false).
    destruct (ascii_dec "." c) as [<-|_]; [discriminate Hc | reflexivity]. }
  rewrite Hpre, (IH Hr). reflexivity.
Qed.

Lemma componentName_removes_first_tsx_witness :
  allChars (fun c => negb (isChar dot c)) "Chart" = true
  /\ componentName "Chart.tsx.test.tsx" = "Chart.test.tsx".
Proof.
  split; [reflexivity|].
  apply (componentName_removes_first_tsx "Chart" ".test.tsx"). reflexivity.
Defined.
